(** * SQL query generator: a shallow embedding of [main.py]

    The translation engine of [SQLQueryGenerator] is embedded function by
    function.  A Python [str] is a [string] whose characters are read as the
    code points 0..255; the character classes below are the ones Python uses
    on that range ([str.lower], [str.isdigit], [str.isspace] and the classes
    of the [re] module on [str] patterns).  The schema, a [dict] that keeps
    insertion order, is an association list.  Calls that can raise in Python
    (subscripting the schema, reading a group of a match) return in an error
    monad, so that the absence of exceptions is a statement about the model. *)

From Stdlib Require Import List Bool Arith Lia Ascii String.
Import ListNotations.
Open Scope list_scope.
Open Scope bool_scope.
Open Scope string_scope.

(** ** Python strings *)

Module PyStr.

Definition code (c : ascii) : nat := nat_of_ascii c.

Definition between (lo hi n : nat) : bool := Nat.leb lo n && Nat.leb n hi.

(** The double quote character and the one-character string made of it. *)
Definition dquote_char : ascii := ascii_of_nat 34.
Definition dquote : string := String dquote_char "".

(** [c.lower()] for one character: A..Z and the Latin-1 capitals. *)
Definition lower_char (c : ascii) : ascii :=
  let n := code c in
  if between 65 90 n || (between 192 222 n && negb (Nat.eqb n 215))
  then ascii_of_nat (n + 32) else c.

(** [c.isdigit()]: 0..9 and the superscripts 2, 3, 1. *)
Definition isdigit_char (c : ascii) : bool :=
  let n := code c in
  between 48 57 n || Nat.eqb n 178 || Nat.eqb n 179 || Nat.eqb n 185.

(** [c.isspace()], also the class [\s]. *)
Definition isspace_char (c : ascii) : bool :=
  let n := code c in
  between 9 13 n || between 28 32 n || Nat.eqb n 133 || Nat.eqb n 160.

(** The class [\d]: decimal digits only. *)
Definition re_digit (c : ascii) : bool := between 48 57 (code c).

(** The class [\w]: alphanumeric characters and the underscore. *)
Definition re_word (c : ascii) : bool :=
  let n := code c in
  between 48 57 n || between 65 90 n || Nat.eqb n 95 || between 97 122 n
  || Nat.eqb n 170 || Nat.eqb n 178 || Nat.eqb n 179 || Nat.eqb n 181 || Nat.eqb n 185
  || Nat.eqb n 186 || between 188 190 n || between 192 214 n
  || between 216 246 n || between 248 255 n.

(** A negated one-character class such as [[^)]]. *)
Definition re_not (x : ascii) (c : ascii) : bool := negb (Ascii.eqb c x).

(** [s.lower()] *)
Fixpoint lower (s : string) : string :=
  match s with
  | EmptyString => EmptyString
  | String c s' => String (lower_char c) (lower s')
  end.

(** [s.startswith(p)] *)
Fixpoint startswith (p s : string) : bool :=
  match p, s with
  | EmptyString, _ => true
  | String a p', String b s' => Ascii.eqb a b && startswith p' s'
  | String _ _, EmptyString => false
  end.

(** [s.endswith(p)]: [p] is one of the suffixes of [s]. *)
Fixpoint endswith (p s : string) : bool :=
  String.eqb p s ||
  match s with
  | EmptyString => false
  | String _ s' => endswith p s'
  end.

(** [k in s] *)
Fixpoint str_in (k s : string) : bool :=
  startswith k s ||
  match s with
  | EmptyString => false
  | String _ s' => str_in k s'
  end.

(** [s.isdigit()]: false on the empty string. *)
Fixpoint all_digits (s : string) : bool :=
  match s with
  | EmptyString => true
  | String c s' => isdigit_char c && all_digits s'
  end.

Definition isdigit (s : string) : bool :=
  match s with
  | EmptyString => false
  | String _ _ => all_digits s
  end.

(** [s[:-1]] *)
Fixpoint drop_last (s : string) : string :=
  match s with
  | EmptyString => EmptyString
  | String _ EmptyString => EmptyString
  | String c s' => String c (drop_last s')
  end.

Fixpoint lstrip (s : string) : string :=
  match s with
  | EmptyString => EmptyString
  | String c s' => if isspace_char c then lstrip s' else s
  end.

Fixpoint rstrip (s : string) : string :=
  match s with
  | EmptyString => EmptyString
  | String c s' =>
      match rstrip s' with
      | EmptyString => if isspace_char c then EmptyString else String c EmptyString
      | r => String c r
      end
  end.

(** [s.strip()] *)
Definition strip (s : string) : string := rstrip (lstrip s).

(** [s.split(sep)] for a one-character separator. *)
Fixpoint split (sep : ascii) (s : string) : list string :=
  match s with
  | EmptyString => [EmptyString]
  | String c s' =>
      if Ascii.eqb c sep then EmptyString :: split sep s'
      else match split sep s' with
           | x :: xs => String c x :: xs
           | [] => [String c EmptyString]
           end
  end.

(** [sep.join(l)] *)
Fixpoint join (sep : string) (l : list string) : string :=
  match l with
  | [] => EmptyString
  | [x] => x
  | x :: rest => x ++ sep ++ join sep rest
  end.

(** The last character of a string, if it has one. *)
Fixpoint last_char (s : string) : option ascii :=
  match s with
  | EmptyString => None
  | String c EmptyString => Some c
  | String _ s' => last_char s'
  end.

End PyStr.
Import PyStr.

(** ** Exceptions *)

Inductive exn : Type :=
| KeyError        (* [d[k]] on a missing key *)
| AttributeError. (* a method called on [None] *)

Inductive result (A : Type) : Type :=
| Ok (a : A)
| Raise (e : exn).
Arguments Ok {A} a.
Arguments Raise {A} e.

Definition bind {A B : Type} (m : result A) (k : A -> result B) : result B :=
  match m with
  | Ok a => k a
  | Raise e => Raise e
  end.

Notation "x <- m ;; k" := (bind m (fun x => k))
  (at level 61, m at next level, right associativity).

Fixpoint mapM {A B : Type} (f : A -> result B) (l : list A) : result (list B) :=
  match l with
  | [] => Ok []
  | a :: l' => b <- f a ;; bs <- mapM f l' ;; Ok (b :: bs)
  end.

(** ** The part of Python's [re] that the patterns use

    Matching is by backtracking: [rmatch] lists every way a pattern matches at
    the start of a string, in the order the engine tries them (greedy
    repetition from the longest run down, alternatives from left to right), so
    the match the engine reports is the head of the list.  Repetition is only
    ever applied to a character class in the patterns of the program. *)

Module Re.

Inductive regex : Type :=
| Lit (l : string)                 (* literal text *)
| Plus (cls : ascii -> bool)       (* [cls+], greedy *)
| Star (cls : ascii -> bool)       (* [cls*], greedy *)
| Opt (r : regex)                  (* [r?], greedy *)
| Alt (r1 r2 : regex)              (* [r1|r2] *)
| Seq (r1 r2 : regex)              (* [r1 r2] *)
| Group (n : nat) (r : regex).     (* capturing group number [n] *)

Definition groups : Type := list (nat * string).

Fixpoint lookup (n : nat) (g : groups) : option string :=
  match g with
  | [] => None
  | (k, v) :: g' => if Nat.eqb k n then Some v else lookup n g'
  end.

(** The text left after a literal prefix. *)
Fixpoint strip_prefix (l s : string) : option string :=
  match l, s with
  | EmptyString, _ => Some s
  | String a l', String b s' => if Ascii.eqb a b then strip_prefix l' s' else None
  | String _ _, EmptyString => None
  end.

(** The runs of [cls] at the start of [s], from the longest to the empty one,
    each with the text that follows it. *)
Fixpoint star_splits (cls : ascii -> bool) (s : string) : list (string * string) :=
  match s with
  | EmptyString => [(EmptyString, EmptyString)]
  | String c s' =>
      if cls c
      then (map (fun p => (String c (fst p), snd p)) (star_splits cls s') ++ [(EmptyString, s)])%list
      else [(EmptyString, s)]
  end.

Definition plus_splits (cls : ascii -> bool) (s : string) : list (string * string) :=
  match s with
  | EmptyString => []
  | String c s' =>
      if cls c
      then map (fun p => (String c (fst p), snd p)) (star_splits cls s')
      else []
  end.

(** One way of matching: the groups set so far, the text matched, the rest. *)
Definition outcome : Type := (groups * string * string)%type.

Fixpoint rmatch (r : regex) (g : groups) (s : string) : list outcome :=
  match r with
  | Lit l =>
      match strip_prefix l s with
      | Some rest => [(g, l, rest)]
      | None => []
      end
  | Plus cls => map (fun p => (g, fst p, snd p)) (plus_splits cls s)
  | Star cls => map (fun p => (g, fst p, snd p)) (star_splits cls s)
  | Opt r1 => (rmatch r1 g s ++ [(g, EmptyString, s)])%list
  | Alt r1 r2 => (rmatch r1 g s ++ rmatch r2 g s)%list
  | Seq r1 r2 =>
      flat_map
        (fun o1 : outcome =>
           let '(g1, m1, rest1) := o1 in
           map (fun o2 : outcome =>
                  let '(g2, m2, rest2) := o2 in (g2, m1 ++ m2, rest2))
               (rmatch r2 g1 rest1))
        (rmatch r1 g s)
  | Group n r1 =>
      map (fun o : outcome => let '(g1, m, rest) := o in ((n, m) :: g1, m, rest))
          (rmatch r1 g s)
  end.

(** A match object: [group(0)] and the numbered groups. *)
Record Match : Type := mkMatch { group0 : string; captured : groups }.

(** [m.group(n)], [None] when the group took no part in the match. *)
Definition group (m : Match) (n : nat) : option string := lookup n (captured m).

(** The match at the very start of [s], if the pattern matches there. *)
Definition match_here (r : regex) (s : string) : option Match :=
  match rmatch r [] s with
  | (g, m, _) :: _ => Some (mkMatch m g)
  | [] => None
  end.

(** [re.search(r, s)]: the match at the leftmost position that has one. *)
Fixpoint search (r : regex) (s : string) : option Match :=
  match match_here r s with
  | Some m => Some m
  | None =>
      match s with
      | EmptyString => None
      | String _ s' => search r s'
      end
  end.

(** [re.finditer(r, s)]: the matches from left to right, each search starting
    where the previous match ended.  [skip] counts the characters of the
    previous match still to be passed.  (After an empty match the scan moves on
    by one character; no pattern of the program matches the empty string.) *)
Fixpoint finditer_from (r : regex) (skip : nat) (s : string) : list Match :=
  match skip with
  | S k =>
      match s with
      | EmptyString => []
      | String _ s' => finditer_from r k s'
      end
  | O =>
      match match_here r s with
      | Some m =>
          m :: match s with
               | EmptyString => []
               | String _ s' => finditer_from r (String.length (group0 m) - 1) s'
               end
      | None =>
          match s with
          | EmptyString => []
          | String _ s' => finditer_from r 0 s'
          end
      end
  end.

Definition finditer (r : regex) (s : string) : list Match := finditer_from r 0 s.

End Re.
Import Re.

Declare Scope regex_scope.
Delimit Scope regex_scope with re.
Notation "a +> b" := (Seq a b) (at level 60, right associativity) : regex_scope.
Notation "a <|> b" := (Alt a b) (at level 65, right associativity) : regex_scope.

(** ** The generator *)

(** [self.tables]: table name to its columns, in insertion order. *)
Definition schema : Type := list (string * list string).

(** The schema [load_schema] returns when there is no [schema.json]. *)
Definition default_schema : schema :=
  [ ("users",    ["id"; "name"; "email"; "age"; "created_at"]);
    ("products", ["id"; "name"; "price"; "category"; "description"]);
    ("orders",   ["id"; "user_id"; "total"; "status"; "order_date"]) ].

Definition select_keywords : list string :=
  ["show"; "display"; "get"; "find"; "select"; "retrieve"; "list"; "query"].
Definition insert_keywords : list string :=
  ["add"; "insert"; "create"; "put"; "include"].
Definition update_keywords : list string :=
  ["update"; "modify"; "change"; "edit"; "alter"; "set"].
Definition delete_keywords : list string :=
  ["delete"; "remove"; "drop"; "exclude"; "eliminate"].

(** [self.tables.keys()] *)
Definition keys (tables : schema) : list string := map fst tables.

(** [table in self.tables] *)
Definition has_key (table : string) (tables : schema) : bool :=
  existsb (String.eqb table) (keys tables).

(** [self.tables[table]] *)
Fixpoint getitem (tables : schema) (table : string) : result (list string) :=
  match tables with
  | [] => Raise KeyError
  | (k, v) :: rest => if String.eqb k table then Ok v else getitem rest table
  end.

(** [any(keyword in query for keyword in keywords)] *)
Definition any_keyword (keywords : list string) (query : string) : bool :=
  existsb (fun keyword => str_in keyword query) keywords.

Definition identify_query_type (query : string) : string :=
  let query := lower query in
  if any_keyword select_keywords query then "SELECT"
  else if any_keyword insert_keywords query then "INSERT"
  else if any_keyword update_keywords query then "UPDATE"
  else if any_keyword delete_keywords query then "DELETE"
  else "UNKNOWN".

(** The first table, in the order of the schema, whose name or whose name
    without its last character occurs in the lower-cased query. *)
Definition identify_table (tables : schema) (query : string) : option string :=
  find (fun table => str_in table (lower query) || str_in (drop_last table) (lower query))
       (keys tables).

(** [table] is the value the callers pass: they return before when it is
    [None]; the test [not table] is kept for the empty name. *)
Definition identify_columns (tables : schema) (query table : string)
  : result (list string) :=
  if String.eqb table "" || negb (has_key table tables) then Ok []
  else
    let query_lower := lower query in
    columns <- getitem tables table ;;
    Ok (filter (fun column => str_in column query_lower) columns).

Definition where_patterns : list regex :=
  let value :=
    (Plus re_word <|> Plus re_digit
     <|> (Lit "'" +> Plus (re_not "'") +> Lit "'")
     <|> (Lit dquote +> Plus (re_not dquote_char) +> Lit dquote))%re in
  [ (Lit "where " +> Group 1 (Plus re_word) +> Lit " "
       +> (Lit "is" <|> Lit "=" <|> Lit "equals" <|> Lit "equal to")
       +> Lit " " +> Group 2 value)%re;
    (Lit "where " +> Group 1 (Plus re_word) +> Lit " "
       +> (Lit ">" <|> Lit "greater than") +> Lit " " +> Group 2 (Plus re_digit))%re;
    (Lit "where " +> Group 1 (Plus re_word) +> Lit " "
       +> (Lit "<" <|> Lit "less than") +> Lit " " +> Group 2 (Plus re_digit))%re;
    (Lit "where " +> Group 1 (Plus re_word) +> Lit " like " +> Group 2 value)%re;
    (Lit "where " +> Group 1 (Plus re_word) +> Lit " in (" 
       +> Group 2 (Plus (re_not ")")) +> Lit ")")%re ].

(** A condition: column, operator, value. *)
Definition condition : Type := (string * string * string)%type.

(** Reading a group that took no part in the match gives [None], and the
    method called on it next raises. *)
Definition group_text (m : Match) (n : nat) : result string :=
  match group m n with
  | Some v => Ok v
  | None => Raise AttributeError
  end.

(** The quoting of a value in [extract_conditions] and, with the same text,
    in [generate_update_query]: quotes are added when the value is not a
    number and not already quoted. *)
Definition quote_value (value : string) : string :=
  if negb (isdigit value) && negb (startswith "'" value && endswith "'" value)
  then if negb (startswith dquote value && endswith dquote value)
       then "'" ++ value ++ "'"
       else value
  else value.

(** The body of the inner loop of [extract_conditions], for one match. *)
Definition condition_of_match (m : Match) : result condition :=
  column <- group_text m 1 ;;
  value <- group_text m 2 ;;
  let operator :=
    if str_in "greater than" (group0 m) || str_in ">" (group0 m) then ">"
    else if str_in "less than" (group0 m) || str_in "<" (group0 m) then "<"
    else if str_in "like" (group0 m) then "LIKE"
    else if str_in "in" (group0 m) then "IN"
    else "=" in
  let value := quote_value value in
  Ok (column, operator, value).

(** The conditions one pattern contributes. *)
Definition conditions_of_pattern (pattern : regex) (query : string)
  : result (list condition) :=
  mapM condition_of_match (finditer pattern (lower query)).

Definition extract_conditions (query : string) : result (list condition) :=
  per_pattern <- mapM (fun pattern => conditions_of_pattern pattern query) where_patterns ;;
  Ok (List.concat per_pattern).

(** [" AND ".join(f"{column} {operator} {value}" ...)] *)
Definition where_clause (conditions : list condition) : string :=
  join " AND "
       (map (fun c : condition =>
               let '(column, operator, value) := c in
               column ++ " " ++ operator ++ " " ++ value)
            conditions).

Definition ERROR_TABLE : string := "ERROR: Could not identify table name in the query.".
Definition ERROR_INSERT : string := "ERROR: Could not identify values to insert.".
Definition ERROR_UPDATE : string := "ERROR: Could not identify values to update.".
Definition WARNING_DELETE : string :=
  "WARNING: This query would delete all records from the table. Please specify conditions.".
Definition SORRY : string :=
  "Sorry, I couldn't understand the type of query you want to create.".

(** The test [if not table] of the builders: [None] and the empty name both
    stop the builder. *)
Definition truthy (table : option string) : option string :=
  match table with
  | Some EmptyString => None
  | t => t
  end.

Definition generate_select_query (tables : schema) (query : string) : result string :=
  match truthy (identify_table tables query) with
  | None => Ok ERROR_TABLE
  | Some table =>
      columns <- identify_columns tables query table ;;
      conditions <- extract_conditions query ;;
      let column_clause :=
        match columns with [] => "*" | _ => join ", " columns end in
      let sql_query := "SELECT " ++ column_clause ++ " FROM " ++ table in
      let sql_query :=
        match conditions with
        | [] => sql_query
        | _ => sql_query ++ " WHERE " ++ where_clause conditions
        end in
      Ok (sql_query ++ ";")
  end.

(** The value formatting of [generate_insert_query]. *)
Definition format_value (value : string) : string :=
  if isdigit value then value
  else if negb (startswith "'" value && endswith "'" value)
       then if negb (startswith dquote value && endswith dquote value)
            then "'" ++ value ++ "'"
            else value
       else value.

Definition values_pattern : regex :=
  (Lit "value" +> Opt (Lit "s") +> Star isspace_char
     +> Opt (Lit "(" <|> Lit ":") +> Star isspace_char
     +> Group 1 (Plus (re_not ")")) +> Opt (Lit ")"))%re.

Definition generate_insert_query (tables : schema) (query : string) : result string :=
  match truthy (identify_table tables query) with
  | None => Ok ERROR_TABLE
  | Some table =>
      match search values_pattern (lower query) with
      | None => Ok ERROR_INSERT
      | Some m =>
          value_text <- group_text m 1 ;;
          let values := map strip (split "," value_text) in
          columns <- identify_columns tables query table ;;
          columns <- match columns with
                     | [] => all <- getitem tables table ;;
                             Ok (filter (fun col => negb (String.eqb col "id")) all)
                     | _ => Ok columns
                     end ;;
          let formatted_values := map format_value values in
          let columns_clause := join ", " columns in
          let values_clause := join ", " formatted_values in
          Ok ("INSERT INTO " ++ table ++ " (" ++ columns_clause
                ++ ") VALUES (" ++ values_clause ++ ");")
      end
  end.

Definition set_pattern : regex :=
  (Lit "set " +> Group 1 (Plus re_word) +> Lit " to "
     +> Group 2 (Plus re_word <|> Plus re_digit
                 <|> (Lit "'" +> Plus (re_not "'") +> Lit "'")
                 <|> (Lit dquote +> Plus (re_not dquote_char) +> Lit dquote)))%re.

(** The body of the loop over the matches of [set_pattern]. *)
Definition set_clause_of_match (m : Match) : result string :=
  column <- group_text m 1 ;;
  value <- group_text m 2 ;;
  let value := quote_value value in
  Ok (column ++ " = " ++ value).

Definition generate_update_query (tables : schema) (query : string) : result string :=
  match truthy (identify_table tables query) with
  | None => Ok ERROR_TABLE
  | Some table =>
      set_clauses <- mapM set_clause_of_match (finditer set_pattern (lower query)) ;;
      match set_clauses with
      | [] => Ok ERROR_UPDATE
      | _ =>
          conditions <- extract_conditions query ;;
          let sql_query := "UPDATE " ++ table ++ " SET " ++ join ", " set_clauses in
          let sql_query :=
            match conditions with
            | [] => sql_query
            | _ => sql_query ++ " WHERE " ++ where_clause conditions
            end in
          Ok (sql_query ++ ";")
      end
  end.

Definition generate_delete_query (tables : schema) (query : string) : result string :=
  match truthy (identify_table tables query) with
  | None => Ok ERROR_TABLE
  | Some table =>
      conditions <- extract_conditions query ;;
      let sql_query := "DELETE FROM " ++ table in
      match conditions with
      | [] => Ok WARNING_DELETE
      | _ => Ok ((sql_query ++ " WHERE " ++ where_clause conditions) ++ ";")
      end
  end.

Definition generate_query (tables : schema) (english_query : string) : result string :=
  let query_type := identify_query_type english_query in
  if String.eqb query_type "SELECT" then generate_select_query tables english_query
  else if String.eqb query_type "INSERT" then generate_insert_query tables english_query
  else if String.eqb query_type "UPDATE" then generate_update_query tables english_query
  else if String.eqb query_type "DELETE" then generate_delete_query tables english_query
  else Ok SORRY.


(** * Properties *)

(** ** Strings *)

Section StringFacts.

(** [k] occurs in [s]. *)
Definition Substring (k s : string) : Prop :=
  exists pre suf, s = pre ++ k ++ suf.

Lemma append_nil_r (s : string) : s ++ "" = s.
Proof. induction s as [|c s IH]; simpl; [reflexivity | now rewrite IH]. Qed.

Lemma append_assoc (a b c : string) : (a ++ b) ++ c = a ++ b ++ c.
Proof. induction a as [|x a IH]; simpl; [reflexivity | now rewrite IH]. Qed.

Lemma length_append (a b : string) :
  String.length (a ++ b) = String.length a + String.length b.
Proof. induction a as [|x a IH]; simpl; [reflexivity | now rewrite IH]. Qed.

Lemma startswith_spec (p s : string) :
  startswith p s = true <-> exists suf, s = p ++ suf.
Proof.
  revert s; induction p as [|a p IH]; intros s; simpl.
  - split; [intros _; now exists s | reflexivity].
  - destruct s as [|b s].
    + split; [discriminate | intros [suf H]; discriminate].
    + rewrite andb_true_iff, Ascii.eqb_eq, IH. split.
      * intros [-> [suf ->]]. now exists suf.
      * intros [suf H]. injection H as -> ->. split; [reflexivity | now exists suf].
Qed.

Lemma str_in_spec (k s : string) : str_in k s = true <-> Substring k s.
Proof.
  induction s as [|c s IH]; simpl.
  - rewrite orb_false_r, startswith_spec. split.
    + intros [suf H]. now exists "", suf.
    + intros [pre [suf H]]. destruct pre; [now exists suf | discriminate].
  - rewrite orb_true_iff, startswith_spec, IH. split.
    + intros [[suf H] | [pre [suf H]]].
      * now exists "", suf.
      * exists (String c pre), suf. simpl. now rewrite H.
    + intros [pre [suf H]]. destruct pre as [|x pre]; simpl in H.
      * left. now exists suf.
      * right. injection H as _ H. now exists pre, suf.
Qed.

Lemma str_in_false (k s : string) : str_in k s = false <-> ~ Substring k s.
Proof.
  rewrite <- str_in_spec. destruct (str_in k s); split; intro H;
    try reflexivity; try discriminate; try congruence.
Qed.

Lemma str_in_empty (s : string) : str_in "" s = true.
Proof. destruct s; reflexivity. Qed.

Lemma endswith_spec (p s : string) :
  endswith p s = true <-> exists pre, s = pre ++ p.
Proof.
  induction s as [|c s IH]; simpl.
  - rewrite orb_false_r, String.eqb_eq. split.
    + intros ->. now exists "".
    + intros [pre H]. destruct pre; simpl in H; [now symmetry | discriminate].
  - rewrite orb_true_iff, String.eqb_eq, IH. split.
    + intros [-> | [pre ->]]; [now exists "" | now exists (String c pre)].
    + intros [pre H]. destruct pre as [|x pre]; simpl in H.
      * now left.
      * right. injection H as _ H. now exists pre.
Qed.

Lemma existsb_str_in (keywords : list string) (s : string) :
  existsb (fun keyword => str_in keyword s) keywords = true
  <-> exists keyword, In keyword keywords /\ Substring keyword s.
Proof.
  rewrite existsb_exists. split; intros [k [Hin H]]; exists k;
    (split; [exact Hin | now apply str_in_spec]).
Qed.

End StringFacts.

(** ** Classification of the sentence *)

Section Classification.

(** One of the keywords occurs in the lower-cased sentence. *)
Definition mentions (keywords : list string) (query : string) : Prop :=
  exists keyword, In keyword keywords /\ Substring keyword (lower query).

Lemma any_keyword_mentions (keywords : list string) (query : string) :
  any_keyword keywords (lower query) = true <-> mentions keywords query.
Proof. apply existsb_str_in. Qed.

Lemma any_keyword_not_mentions (keywords : list string) (query : string) :
  any_keyword keywords (lower query) = false <-> ~ mentions keywords query.
Proof.
  rewrite <- any_keyword_mentions.
  destruct (any_keyword keywords (lower query)); split; intro H;
    try reflexivity; try discriminate; try congruence.
Qed.

(** C3: the keyword sets are tried in the order SELECT, INSERT, UPDATE,
    DELETE on the lower-cased sentence and the first one with a keyword that
    occurs in it decides; a sentence with an INSERT keyword is SELECT when a
    SELECT keyword occurs too and INSERT otherwise; UNKNOWN is returned exactly
    when no set has a keyword in the sentence. *)
Theorem identify_query_type_precedence (query : string) :
  (mentions insert_keywords query ->
     (mentions select_keywords query -> identify_query_type query = "SELECT")
     /\ (~ mentions select_keywords query -> identify_query_type query = "INSERT"))
  /\ (mentions select_keywords query -> identify_query_type query = "SELECT")
  /\ (~ mentions select_keywords query -> mentions insert_keywords query ->
        identify_query_type query = "INSERT")
  /\ (~ mentions select_keywords query -> ~ mentions insert_keywords query ->
        mentions update_keywords query -> identify_query_type query = "UPDATE")
  /\ (~ mentions select_keywords query -> ~ mentions insert_keywords query ->
        ~ mentions update_keywords query -> mentions delete_keywords query ->
        identify_query_type query = "DELETE")
  /\ (identify_query_type query = "UNKNOWN" <->
        ~ mentions select_keywords query /\ ~ mentions insert_keywords query
        /\ ~ mentions update_keywords query /\ ~ mentions delete_keywords query).
Proof.
  unfold identify_query_type.
  destruct (any_keyword select_keywords (lower query)) eqn:Hs;
  destruct (any_keyword insert_keywords (lower query)) eqn:Hi;
  destruct (any_keyword update_keywords (lower query)) eqn:Hu;
  destruct (any_keyword delete_keywords (lower query)) eqn:Hd;
  repeat match goal with
         | H : any_keyword _ _ = true |- _ => apply any_keyword_mentions in H
         | H : any_keyword _ _ = false |- _ => apply any_keyword_not_mentions in H
         end;
  repeat split; intros; try reflexivity; try discriminate; try tauto.
Qed.

(** The sentence [add a user] has an INSERT keyword and no SELECT keyword;
    [show what to add] has both. *)
Lemma identify_query_type_precedence_witness :
  identify_query_type "add a user" = "INSERT"
  /\ identify_query_type "show what to add" = "SELECT".
Proof.
  split.
  - refine (proj2 (proj1 (identify_query_type_precedence "add a user") _) _).
    + apply any_keyword_mentions. vm_compute. reflexivity.
    + apply any_keyword_not_mentions. vm_compute. reflexivity.
  - refine (proj1 (proj1 (identify_query_type_precedence "show what to add") _) _).
    + apply any_keyword_mentions. vm_compute. reflexivity.
    + apply any_keyword_mentions. vm_compute. reflexivity.
Defined.

End Classification.

(** ** Resolution of the table *)

Section TableResolution.

Lemma drop_last_short (table : string) :
  String.length table <= 1 -> drop_last table = "".
Proof.
  destruct table as [|c [|d t]]; simpl; intro H; try reflexivity. lia.
Qed.

(** The test [identify_table] applies to one table name. *)
Definition table_matches (query table : string) : bool :=
  str_in table (lower query) || str_in (drop_last table) (lower query).

(** C10: a table whose name has at most one character has the empty string
    as its name without the last character; the empty string occurs in every
    sentence, so the table passes the test of [identify_table] on every
    sentence and [identify_table] never returns [None]; when that table comes
    first in the schema it is the table returned. *)
Theorem identify_table_short_name
  (tables : schema) (table : string) (columns : list string) (query : string)
  (Hin : In (table, columns) tables) (Hshort : String.length table <= 1) :
  drop_last table = ""
  /\ Substring (drop_last table) (lower query)
  /\ table_matches query table = true
  /\ identify_table tables query <> None
  /\ (forall rest, tables = (table, columns) :: rest ->
        identify_table tables query = Some table).
Proof.
  pose proof (drop_last_short table Hshort) as Hd.
  assert (Hm : table_matches query table = true).
  { unfold table_matches. rewrite Hd, str_in_empty. apply orb_true_r. }
  repeat split.
  - exact Hd.
  - rewrite Hd. now exists "", (lower query).
  - exact Hm.
  - unfold identify_table. intro Hnone.
    pose proof (find_none _ _ Hnone table) as Hf.
    assert (Hk : In table (keys tables)).
    { unfold keys. change table with (fst (table, columns)). now apply in_map. }
    specialize (Hf Hk). unfold table_matches in Hm. congruence.
  - intros rest ->. unfold identify_table. simpl.
    unfold table_matches in Hm. now rewrite Hm.
Qed.

(** A schema that starts with a table named [x]: the sentence names no table
    and [x] is returned all the same. *)
Lemma identify_table_short_name_witness :
  identify_table (("x", ["id"]) :: default_schema) "show all users" = Some "x".
Proof.
  refine (proj2 (proj2 (proj2 (proj2
    (identify_table_short_name (("x", ["id"]) :: default_schema) "x" ["id"]
       "show all users" _ _)))) default_schema eq_refl).
  - left. reflexivity.
  - simpl. lia.
Defined.

End TableResolution.

(** ** Quoting of values *)

Section Quoting.

(** [value] begins and ends with the quote [q], the test the code applies. *)
Definition quoted_with (q value : string) : Prop :=
  startswith q value = true /\ endswith q value = true.

(** Some character of [value] is not a digit. *)
Definition has_non_digit (value : string) : Prop :=
  exists pre c suf, value = pre ++ String c suf /\ isdigit_char c = false.

Lemma quoted_with_wrap (q body : string) : quoted_with q (q ++ body ++ q).
Proof.
  split.
  - apply startswith_spec. now exists (body ++ q).
  - apply endswith_spec. exists (q ++ body). now rewrite append_assoc.
Qed.

Lemma isdigit_all_digits (value : string) :
  isdigit value = true -> all_digits value = true.
Proof. destruct value; [discriminate | trivial]. Qed.

Lemma all_digits_no_non_digit (value : string) :
  all_digits value = true -> ~ has_non_digit value.
Proof.
  induction value as [|a v IH]; intros H [pre [c [suf [E Hc]]]].
  - destruct pre; discriminate.
  - simpl in H. apply andb_true_iff in H as [Ha Hv].
    destruct pre as [|p pre]; simpl in E; injection E as -> E.
    + congruence.
    + apply IH; [assumption | now exists pre, c, suf].
Qed.

Lemma has_non_digit_isdigit (value : string) :
  has_non_digit value -> isdigit value = false.
Proof.
  intro H. destruct (isdigit value) eqn:E; [|reflexivity].
  exfalso. now apply (all_digits_no_non_digit value (isdigit_all_digits value E)).
Qed.

Lemma isdigit_not_startswith_quote (q : ascii) (value : string) :
  isdigit_char q = false -> isdigit value = true ->
  startswith (String q "") value = false.
Proof.
  intros Hq H. destruct value as [|c v]; [reflexivity|].
  simpl in H. apply andb_true_iff in H as [Hc _]. simpl.
  destruct (Ascii.eqb q c) eqn:E; [|reflexivity].
  apply Ascii.eqb_eq in E. congruence.
Qed.

Lemma startswith_other_quote (a b : ascii) (body : string) :
  Ascii.eqb a b = false ->
  startswith (String a "") (String b body) = false.
Proof. intro H. simpl. now rewrite H. Qed.

Lemma quote_value_cases (value : string) :
  (isdigit value = true /\ quote_value value = value)
  \/ (isdigit value = false
      /\ (quoted_with "'" value \/ quoted_with dquote value)
      /\ quote_value value = value)
  \/ (isdigit value = false
      /\ ~ quoted_with "'" value /\ ~ quoted_with dquote value
      /\ quote_value value = "'" ++ value ++ "'").
Proof.
  unfold quote_value, quoted_with.
  destruct (isdigit value); [left; auto|]. right.
  destruct (startswith "'" value) eqn:S1, (endswith "'" value) eqn:E1;
  destruct (startswith dquote value) eqn:S2, (endswith dquote value) eqn:E2;
  simpl;
  first [ left; split; [reflexivity|]; split; [|reflexivity]; tauto
        | right; split; [reflexivity|]; repeat split; try reflexivity;
          intros [? ?]; discriminate ].
Qed.

Lemma format_value_quote_value (value : string) :
  format_value value = quote_value value.
Proof.
  unfold format_value, quote_value. destruct (isdigit value); reflexivity.
Qed.

Lemma quote_value_quoted (q value : string) :
  q = "'" \/ q = dquote -> quoted_with q value -> quote_value value = value.
Proof.
  intros Hq [Hs He]. unfold quote_value.
  destruct Hq as [-> | ->].
  - rewrite Hs, He. destruct (isdigit value); reflexivity.
  - rewrite Hs, He.
    destruct (negb (isdigit value) && negb (startswith "'" value && endswith "'" value));
      reflexivity.
Qed.

Lemma quote_value_bare (value : string) :
  isdigit value = false -> ~ quoted_with "'" value -> ~ quoted_with dquote value ->
  quote_value value = "'" ++ value ++ "'".
Proof.
  intros Hd H1 H2.
  destruct (quote_value_cases value) as [[E _] | [[_ [Hq _]] | [_ [_ [_ E]]]]];
    [congruence | tauto | exact E].
Qed.

Lemma isdigit_spec (value : string) :
  isdigit value = true <-> value <> "" /\ all_digits value = true.
Proof.
  destruct value as [|c v]; simpl.
  - split; [discriminate | intros [H _]; now elim H].
  - split; [intro H; split; [discriminate | exact H] | now intros [_ H]].
Qed.



(** The one-character string made of a quote begins and ends with the quote:
    it passes the test of the code and is left as it is. *)
Example lone_quote_unchanged :
  quoted_with "'" "'" /\ quote_value "'" = "'" /\ format_value "'" = "'".
Proof. repeat split; reflexivity. Qed.

(** The value does not begin with a quote character. *)
Definition unquoted (value : string) : Prop :=
  startswith "'" value = false /\ startswith dquote value = false.

(** C9, as the code has it: only a value made of digits only is left without
    quotes.  A value with a character that is not a digit fails [isdigit]; it
    is wrapped in single quotes unless it already begins and ends with a single
    quote or begins and ends with a double quote, and then it is left as it
    is.  The decimal literal 9.99 becomes '9.99' in the conditions and in the
    values of an INSERT. *)
Theorem only_digits_unquoted (value : string) :
  (unquoted (quote_value value) <-> isdigit value = true)
  /\ (unquoted (format_value value) <-> isdigit value = true)
  /\ (has_non_digit value ->
        isdigit value = false
        /\ (~ quoted_with "'" value -> ~ quoted_with dquote value ->
              quote_value value = "'" ++ value ++ "'"
              /\ format_value value = "'" ++ value ++ "'")
        /\ (quoted_with "'" value \/ quoted_with dquote value ->
              quote_value value = value /\ format_value value = value))
  /\ quote_value "9.99" = "'9.99'"
  /\ format_value "9.99" = "'9.99'"
  /\ generate_query default_schema "add product values 9.99"
     = Ok "INSERT INTO products (name, price, category, description) VALUES ('9.99');"
  /\ generate_query default_schema "show products where price in (9.99)"
     = Ok "SELECT price FROM products WHERE price IN '9.99';".
Proof.
  assert (Hu : unquoted (quote_value value) <-> isdigit value = true).
  { unfold unquoted.
    destruct (quote_value_cases value) as [[Hd E] | [[Hd [Hq E]] | [Hd [_ [_ E]]]]];
      rewrite E, Hd.
    - split; [reflexivity | intros _].
      split; apply isdigit_not_startswith_quote; auto.
    - split; [|discriminate]. intros [H1 H2].
      destruct Hq as [[Hs _] | [Hs _]]; congruence.
    - split; [|discriminate]. intros [H1 _]. simpl in H1. discriminate. }
  split; [exact Hu|].
  split; [now rewrite format_value_quote_value|].
  split.
  - intro Hn. pose proof (has_non_digit_isdigit value Hn) as Hd.
    split; [exact Hd|]. split.
    + intros H1 H2. rewrite format_value_quote_value.
      split; now apply quote_value_bare.
    + intros Hq. rewrite format_value_quote_value.
      destruct Hq as [Hq | Hq]; split;
        first [ now apply (quote_value_quoted "'"); [left|]
              | now apply (quote_value_quoted dquote); [right|] ].
  - repeat split; vm_compute; reflexivity.
Qed.

(** The word [bob]: not a number, not quoted, so wrapped in single quotes. *)
Lemma only_digits_unquoted_witness :
  isdigit "bob" = false /\ quote_value "bob" = "'bob'" /\ format_value "bob" = "'bob'".
Proof.
  assert (Hn : has_non_digit "bob").
  { exists "", "b"%char, "ob". split; reflexivity. }
  destruct (proj1 (proj2 (proj2 (only_digits_unquoted "bob"))) Hn) as [Hd [Hw _]].
  split; [exact Hd|].
  apply Hw; intros [H _]; discriminate H.
Defined.

(** The claim of C9 as it is worded fails on a value in double quotes: it has
    characters that are not digits and no single quote is put around it. *)
Lemma double_quoted_not_single_quoted :
  ~ (forall value, has_non_digit value ->
       startswith "'" (quote_value value) = true
       /\ startswith "'" (format_value value) = true).
Proof.
  intro H.
  destruct (H (dquote ++ "bob" ++ dquote)) as [H1 _].
  - exists dquote, "b"%char, ("ob" ++ dquote). split; reflexivity.
  - vm_compute in H1. discriminate H1.
Qed.

End Quoting.

(** ** Two sentences translated with the built-in schema *)

Section EndToEnd.

(** C5, as the code has it: the column [age] of [users] occurs in the
    sentence, so it is the column clause, and the statement is
    [SELECT age FROM users WHERE age > 18;]. *)
Theorem select_users_age :
  identify_query_type "show all users where age > 18" = "SELECT"
  /\ identify_table default_schema "show all users where age > 18" = Some "users"
  /\ identify_columns default_schema "show all users where age > 18" "users" = Ok ["age"]
  /\ extract_conditions "show all users where age > 18" = Ok [("age", ">", "18")]
  /\ generate_query default_schema "show all users where age > 18"
     = Ok "SELECT age FROM users WHERE age > 18;".
Proof. repeat split; vm_compute; reflexivity. Qed.

(** The statement C5 expects, with [*] for the columns, is not the one
    produced. *)
Lemma select_users_age_not_star :
  generate_query default_schema "show all users where age > 18"
  <> Ok "SELECT * FROM users WHERE age > 18;".
Proof. vm_compute. discriminate. Qed.

(** C6, as the code has it: the word [widget] contains the SELECT keyword
    [get], and SELECT is tried first, so the sentence is translated as a
    SELECT; [widget] also contains the column name [id].  The INSERT builder
    called on the sentence uses the column [id] for the same reason, and
    quotes 9.99, which is not made of digits only; the values are read from
    the lower-cased sentence. *)
Theorem add_product_widget :
  let sentence := "add a product with values ('Widget', 9.99, 'tools', 'A widget')" in
  identify_query_type sentence = "SELECT"
  /\ Substring "get" (lower sentence)
  /\ identify_table default_schema sentence = Some "products"
  /\ identify_columns default_schema sentence "products" = Ok ["id"]
  /\ generate_query default_schema sentence = Ok "SELECT id FROM products;"
  /\ generate_insert_query default_schema sentence
     = Ok "INSERT INTO products (id) VALUES ('widget', '9.99', 'tools', 'a widget');".
Proof.
  repeat split; try (vm_compute; reflexivity).
  apply str_in_spec. vm_compute. reflexivity.
Qed.

(** The result for the sentence of C6 is no INSERT into [products]. *)
Lemma add_product_widget_not_insert :
  ~ (exists rest,
       generate_query default_schema
         "add a product with values ('Widget', 9.99, 'tools', 'A widget')"
       = Ok ("INSERT INTO products" ++ rest)).
Proof. intros [rest H]. vm_compute in H. discriminate H. Qed.

End EndToEnd.

(** ** Facts about the matcher *)

Section Matcher.

(** The matched text and the rest make up the text the match started on. *)
Lemma strip_prefix_spec (l s rest : string) :
  strip_prefix l s = Some rest <-> s = l ++ rest.
Proof.
  revert s; induction l as [|a l IH]; intros s; simpl.
  - split; [intros [= ->]; reflexivity | intros ->; reflexivity].
  - destruct s as [|b s]; [split; discriminate|].
    destruct (Ascii.eqb a b) eqn:E.
    + apply Ascii.eqb_eq in E as ->. rewrite IH. split; [intros ->; reflexivity|].
      intros [= H]. exact H.
    + split; [discriminate|]. intros [= H _]. subst.
      rewrite Ascii.eqb_refl in E. discriminate.
Qed.

(** Every character of the string is in the class. *)
Fixpoint all_in (cls : ascii -> bool) (s : string) : bool :=
  match s with
  | EmptyString => true
  | String c s' => cls c && all_in cls s'
  end.

Lemma star_splits_spec (cls : ascii -> bool) (s m rest : string) :
  In (m, rest) (star_splits cls s) -> s = m ++ rest /\ all_in cls m = true.
Proof.
  revert m rest; induction s as [|c s IH]; intros m rest; simpl.
  - intros [[= <- <-] | []]. split; reflexivity.
  - destruct (cls c) eqn:E.
    + rewrite in_app_iff, in_map_iff. intros [[[m' r'] [[= <- <-] H]] | [[= <- <-] | []]].
      * apply IH in H as [-> Hall]. simpl. rewrite E, Hall. split; reflexivity.
      * split; reflexivity.
    + intros [[= <- <-] | []]. split; reflexivity.
Qed.

Lemma plus_splits_spec (cls : ascii -> bool) (s m rest : string) :
  In (m, rest) (plus_splits cls s) ->
  s = m ++ rest /\ all_in cls m = true /\ m <> "".
Proof.
  destruct s as [|c s]; simpl; [intros []|].
  destruct (cls c) eqn:E; [|intros []].
  rewrite in_map_iff. intros [[m' r'] [[= <- <-] H]].
  apply star_splits_spec in H as [-> Hall]. simpl. rewrite E, Hall.
  repeat split. discriminate.
Qed.

Lemma rmatch_Lit (l : string) (g g' : groups) (s m rest : string) :
  In (g', m, rest) (rmatch (Lit l) g s) -> g' = g /\ m = l /\ s = l ++ rest.
Proof.
  simpl. destruct (strip_prefix l s) as [r|] eqn:E; [|intros []].
  intros [[= <- <- <-] | []]. apply strip_prefix_spec in E. auto.
Qed.

Lemma rmatch_Plus (cls : ascii -> bool) (g g' : groups) (s m rest : string) :
  In (g', m, rest) (rmatch (Plus cls) g s) ->
  g' = g /\ s = m ++ rest /\ all_in cls m = true /\ m <> "".
Proof.
  simpl. rewrite in_map_iff. intros [[m' r'] [[= <- <- <-] H]].
  split; [reflexivity | now apply plus_splits_spec].
Qed.

Lemma rmatch_Star (cls : ascii -> bool) (g g' : groups) (s m rest : string) :
  In (g', m, rest) (rmatch (Star cls) g s) ->
  g' = g /\ s = m ++ rest /\ all_in cls m = true.
Proof.
  simpl. rewrite in_map_iff. intros [[m' r'] [[= <- <- <-] H]].
  split; [reflexivity | now apply star_splits_spec].
Qed.

Lemma rmatch_Opt (r : regex) (g g' : groups) (s m rest : string) :
  In (g', m, rest) (rmatch (Opt r) g s) ->
  In (g', m, rest) (rmatch r g s) \/ (g' = g /\ m = "" /\ rest = s).
Proof.
  simpl. rewrite in_app_iff. intros [H | [[= <- <- <-] | []]]; auto.
Qed.

Lemma rmatch_Alt (r1 r2 : regex) (g g' : groups) (s m rest : string) :
  In (g', m, rest) (rmatch (Alt r1 r2) g s) ->
  In (g', m, rest) (rmatch r1 g s) \/ In (g', m, rest) (rmatch r2 g s).
Proof. simpl. now rewrite in_app_iff. Qed.

Lemma rmatch_Seq (r1 r2 : regex) (g g' : groups) (s m rest : string) :
  In (g', m, rest) (rmatch (Seq r1 r2) g s) ->
  exists g1 m1 rest1 m2,
    In (g1, m1, rest1) (rmatch r1 g s)
    /\ In (g', m2, rest) (rmatch r2 g1 rest1)
    /\ m = m1 ++ m2.
Proof.
  simpl. rewrite in_flat_map. intros [[[g1 m1] rest1] [H1 H2]].
  rewrite in_map_iff in H2. destruct H2 as [[[g2 m2] rest2] [[= <- <- <-] H2]].
  now exists g1, m1, rest1, m2.
Qed.

Lemma rmatch_Group (n : nat) (r : regex) (g g' : groups) (s m rest : string) :
  In (g', m, rest) (rmatch (Group n r) g s) ->
  exists g1, In (g1, m, rest) (rmatch r g s) /\ g' = (n, m) :: g1.
Proof.
  simpl. rewrite in_map_iff. intros [[[g1 m1] rest1] [[= <- <- <-] H]].
  now exists g1.
Qed.

(** What a successful match consumed is a prefix of the text. *)
Lemma rmatch_text (r : regex) :
  forall g g' s m rest, In (g', m, rest) (rmatch r g s) -> s = m ++ rest.
Proof.
  induction r as [l | cls | cls | r IH | r1 IH1 r2 IH2 | r1 IH1 r2 IH2 | n r IH];
    intros g g' s m rest H.
  - apply rmatch_Lit in H as [_ [-> ->]]. reflexivity.
  - apply rmatch_Plus in H as [_ [-> _]]. reflexivity.
  - apply rmatch_Star in H as [_ [-> _]]. reflexivity.
  - apply rmatch_Opt in H as [H | [_ [-> ->]]]; [now apply IH in H | reflexivity].
  - apply rmatch_Alt in H as [H | H]; [now apply IH1 in H | now apply IH2 in H].
  - apply rmatch_Seq in H as [g1 [m1 [rest1 [m2 [H1 [H2 ->]]]]]].
    apply IH1 in H1. apply IH2 in H2. subst. now rewrite append_assoc.
  - apply rmatch_Group in H as [g1 [H _]]. now apply IH in H.
Qed.

(** [binds n r]: every match of [r] sets group [n]. *)
Fixpoint binds (n : nat) (r : regex) : bool :=
  match r with
  | Group k r1 => Nat.eqb k n || binds n r1
  | Seq r1 r2 => binds n r1 || binds n r2
  | Alt r1 r2 => binds n r1 && binds n r2
  | Lit _ | Plus _ | Star _ | Opt _ => false
  end.

Lemma rmatch_keeps (n : nat) (r : regex) :
  forall g g' s m rest,
    In (g', m, rest) (rmatch r g s) -> lookup n g <> None -> lookup n g' <> None.
Proof.
  induction r as [l | cls | cls | r IH | r1 IH1 r2 IH2 | r1 IH1 r2 IH2 | k r IH];
    intros g g' s m rest H Hg.
  - apply rmatch_Lit in H as [-> _]. exact Hg.
  - apply rmatch_Plus in H as [-> _]. exact Hg.
  - apply rmatch_Star in H as [-> _]. exact Hg.
  - apply rmatch_Opt in H as [H | [-> _]]; [now apply IH in H | exact Hg].
  - apply rmatch_Alt in H as [H | H]; [now apply IH1 in H | now apply IH2 in H].
  - apply rmatch_Seq in H as [g1 [m1 [rest1 [m2 [H1 [H2 _]]]]]].
    apply IH2 in H2; [exact H2 | now apply IH1 in H1].
  - apply rmatch_Group in H as [g1 [H ->]]. simpl.
    destruct (Nat.eqb k n); [discriminate | now apply IH in H].
Qed.

Lemma rmatch_binds (n : nat) (r : regex) :
  forall g g' s m rest,
    In (g', m, rest) (rmatch r g s) -> binds n r = true -> lookup n g' <> None.
Proof.
  induction r as [l | cls | cls | r IH | r1 IH1 r2 IH2 | r1 IH1 r2 IH2 | k r IH];
    intros g g' s m rest H Hb; simpl in Hb; try discriminate.
  - apply andb_true_iff in Hb as [Hb1 Hb2].
    apply rmatch_Alt in H as [H | H]; [now apply IH1 in H | now apply IH2 in H].
  - apply rmatch_Seq in H as [g1 [m1 [rest1 [m2 [H1 [H2 _]]]]]].
    destruct (binds n r1) eqn:E1.
    + apply (rmatch_keeps n r2 _ _ _ _ _ H2). now apply IH1 in H1.
    + now apply IH2 in H2.
  - apply rmatch_Group in H as [g1 [H ->]]. simpl.
    destruct (Nat.eqb k n) eqn:E; [discriminate | now apply IH in H].
Qed.

(** The patterns given to [finditer] begin with a literal word, so none of
    their matches is empty. *)
Lemma finditer_patterns_nonempty (pattern : regex) :
  In pattern (set_pattern :: where_patterns) ->
  forall g g' s m rest, In (g', m, rest) (rmatch pattern g s) -> m <> "".
Proof.
  intros Hp g g' s m rest H.
  repeat (destruct Hp as [<- | Hp];
          [apply rmatch_Seq in H as [g1 [m1 [r1 [m2 [H1 [_ ->]]]]]];
           apply rmatch_Lit in H1 as [_ [-> _]]; discriminate|]).
  destruct Hp.
Qed.

(** A match found at the start of a text is the first outcome there. *)
Lemma match_here_outcome (r : regex) (s : string) (m : Match) :
  match_here r s = Some m ->
  exists rest, In (captured m, group0 m, rest) (rmatch r [] s).
Proof.
  unfold match_here. destruct (rmatch r [] s) as [|[[g t] rest] l] eqn:E; [discriminate|].
  intros [= <-]. exists rest. simpl. now left.
Qed.

Lemma search_found (r : regex) (s : string) (m : Match) :
  search r s = Some m ->
  exists pre s', s = pre ++ s' /\ match_here r s' = Some m.
Proof.
  induction s as [|c s IH]; simpl.
  - destruct (match_here r "") eqn:E; [|discriminate].
    intros [= <-]. now exists "", "".
  - destruct (match_here r (String c s)) eqn:E.
    + intros [= <-]. now exists "", (String c s).
    + intros H. apply IH in H as [pre [s' [-> H]]]. now exists (String c pre), s'.
Qed.

Lemma finditer_from_found (r : regex) (m : Match) :
  forall s skip, In m (finditer_from r skip s) ->
  exists pre s', s = pre ++ s' /\ match_here r s' = Some m.
Proof.
  induction s as [|c s IH]; intros skip H.
  - destruct skip; simpl in H; [|destruct H].
    destruct (match_here r "") eqn:E; [|destruct H].
    destruct H as [<- | []]. now exists "", "".
  - destruct skip; simpl in H.
    + destruct (match_here r (String c s)) eqn:E.
      * destruct H as [<- | H]; [now exists "", (String c s)|].
        apply IH in H as [pre [s' [-> H]]]. now exists (String c pre), s'.
      * apply IH in H as [pre [s' [-> H]]]. now exists (String c pre), s'.
    + apply IH in H as [pre [s' [-> H]]]. now exists (String c pre), s'.
Qed.

(** A match that [finditer] or [search] reports: its text occurs in the text
    searched, and it is an outcome of the pattern at that place. *)
Definition match_of (r : regex) (s : string) (m : Match) : Prop :=
  exists pre rest,
    s = pre ++ group0 m ++ rest
    /\ In (captured m, group0 m, rest) (rmatch r [] (group0 m ++ rest)).

Lemma match_here_match_of (r : regex) (pre s' : string) (m : Match) :
  match_here r s' = Some m -> match_of r (pre ++ s') m.
Proof.
  intro H. apply match_here_outcome in H as [rest H].
  pose proof (rmatch_text _ _ _ _ _ _ H) as E.
  exists pre, rest. rewrite <- E. auto.
Qed.

Lemma finditer_match_of (r : regex) (s : string) (m : Match) :
  In m (finditer r s) -> match_of r s m.
Proof.
  intro H. apply finditer_from_found in H as [pre [s' [-> H]]].
  now apply match_here_match_of.
Qed.

Lemma search_match_of (r : regex) (s : string) (m : Match) :
  search r s = Some m -> match_of r s m.
Proof.
  intro H. apply search_found in H as [pre [s' [-> H]]].
  now apply match_here_match_of.
Qed.

Lemma match_of_group (r : regex) (s : string) (m : Match) (n : nat) :
  match_of r s m -> binds n r = true -> exists v, group_text m n = Ok v.
Proof.
  intros [pre [rest [_ H]]] Hb.
  pose proof (rmatch_binds n r _ _ _ _ _ H Hb) as Hl.
  unfold group_text, group. destruct (lookup n (captured m)) as [v|]; [now exists v | congruence].
Qed.

End Matcher.

(** ** The conditions are always extracted *)

Section Conditions.

Lemma mapM_Forall2 {A B : Type} (f : A -> result B) (l : list A) (bs : list B) :
  mapM f l = Ok bs -> Forall2 (fun a b => f a = Ok b) l bs.
Proof.
  revert bs; induction l as [|a l IH]; intros bs; simpl.
  - intros [= <-]. constructor.
  - destruct (f a) as [b|e] eqn:E; simpl; [|discriminate].
    destruct (mapM f l) as [bs'|e]; simpl; [|discriminate].
    intros [= <-]. constructor; [exact E | now apply IH].
Qed.

Lemma mapM_total {A B : Type} (f : A -> result B) (l : list A) :
  (forall a, In a l -> exists b, f a = Ok b) -> exists bs, mapM f l = Ok bs.
Proof.
  induction l as [|a l IH]; intros H; simpl.
  - now exists [].
  - destruct (H a (or_introl eq_refl)) as [b ->].
    destruct IH as [bs ->]; [intros x Hx; apply H; now right|].
    now exists (b :: bs).
Qed.

Lemma Forall2_In_r {A B : Type} (R : A -> B -> Prop) (l : list A) (bs : list B) (b : B) :
  Forall2 R l bs -> In b bs -> exists a, In a l /\ R a b.
Proof.
  induction 1 as [|a0 b0 l0 bs0 HR _ IH]; intros Hin; [destruct Hin|].
  destruct Hin as [<- | Hin].
  - exists a0. split; [now left | exact HR].
  - destruct (IH Hin) as [a [Ha HRa]]. exists a. split; [now right | exact HRa].
Qed.

Lemma Forall2_Forall_l {A B : Type} (P : A -> Prop) (R : A -> B -> Prop)
      (l : list A) (bs : list B) :
  Forall P l -> Forall2 R l bs -> Forall2 (fun a b => P a /\ R a b) l bs.
Proof.
  intros HP HR. induction HR as [|a b l' bs' Hab _ IH]; constructor.
  - split; [now inversion HP | exact Hab].
  - apply IH. now inversion HP.
Qed.

(** The operator and the value that [condition_of_match] gives, when both
    groups are set. *)
Lemma condition_of_match_groups (m : Match) (column value : string) :
  group_text m 1 = Ok column -> group_text m 2 = Ok value ->
  exists operator,
    condition_of_match m = Ok (column, operator, quote_value value).
Proof.
  intros H1 H2. unfold condition_of_match. rewrite H1, H2. simpl.
  eexists. reflexivity.
Qed.

Lemma where_patterns_bind (pattern : regex) :
  In pattern where_patterns -> binds 1 pattern = true /\ binds 2 pattern = true.
Proof.
  intros H. repeat (destruct H as [<- | H]; [split; reflexivity|]). destruct H.
Qed.

(** A condition comes from a match of its pattern in the lower-cased
    sentence. *)
Lemma conditions_of_pattern_total (pattern : regex) (query : string) :
  binds 1 pattern = true -> binds 2 pattern = true ->
  exists conditions,
    conditions_of_pattern pattern query = Ok conditions
    /\ Forall2 (fun m c => match_of pattern (lower query) m /\ condition_of_match m = Ok c)
               (finditer pattern (lower query)) conditions.
Proof.
  intros B1 B2. unfold conditions_of_pattern.
  assert (Hall : forall m, In m (finditer pattern (lower query)) ->
                           exists c, condition_of_match m = Ok c).
  { intros m Hm. apply finditer_match_of in Hm.
    destruct (match_of_group _ _ _ 1 Hm B1) as [column H1].
    destruct (match_of_group _ _ _ 2 Hm B2) as [value H2].
    destruct (condition_of_match_groups m column value H1 H2) as [op E].
    eexists. exact E. }
  destruct (mapM_total _ _ Hall) as [conditions E]. exists conditions.
  split; [exact E|].
  apply mapM_Forall2 in E.
  assert (Hm : Forall (match_of pattern (lower query)) (finditer pattern (lower query))).
  { apply Forall_forall. intros m. apply finditer_match_of. }
  now apply Forall2_Forall_l.
Qed.

(** Every condition of [extract_conditions] is the condition of a match of
    one of the five patterns. *)
Definition from_some_match (query : string) (c : condition) : Prop :=
  exists pattern m,
    In pattern where_patterns
    /\ In m (finditer pattern (lower query))
    /\ match_of pattern (lower query) m
    /\ condition_of_match m = Ok c.

Lemma extract_conditions_total (query : string) :
  exists conditions,
    extract_conditions query = Ok conditions
    /\ Forall (from_some_match query) conditions.
Proof.
  unfold extract_conditions.
  assert (Hall : forall pattern, In pattern where_patterns ->
                 exists cs, conditions_of_pattern pattern query = Ok cs).
  { intros p Hp. destruct (where_patterns_bind p Hp) as [B1 B2].
    destruct (conditions_of_pattern_total p query B1 B2) as [cs [E _]]. now exists cs. }
  destruct (mapM_total _ _ Hall) as [per E]. rewrite E. simpl.
  exists (List.concat per). split; [reflexivity|].
  apply mapM_Forall2 in E. apply Forall_forall. intros c Hc.
  apply in_concat in Hc as [cs [Hcs Hc]].
  destruct (Forall2_In_r _ _ _ _ E Hcs) as [p [Hp Ep]].
  destruct (where_patterns_bind p Hp) as [B1 B2].
  destruct (conditions_of_pattern_total p query B1 B2) as [cs' [E' F]].
  assert (cs' = cs) by congruence. subst cs'.
  destruct (Forall2_In_r _ _ _ _ F Hc) as [m [Hm [Hmo Hcm]]].
  now exists p, m.
Qed.


End Conditions.

(** ** The statement builders *)

Section Builders.

(** The table the builders go on with: [identify_table] returned it and it
    passed the test [if not table]. *)
Definition resolved_table (tables : schema) (query table : string) : Prop :=
  identify_table tables query = Some table /\ table <> "".

Lemma truthy_resolved (tables : schema) (query table : string) :
  truthy (identify_table tables query) = Some table <-> resolved_table tables query table.
Proof.
  unfold resolved_table. destruct (identify_table tables query) as [[|c t]|]; simpl; split.
  - discriminate.
  - intros [[= <-] H]. now elim H.
  - intros [= <-]. split; [reflexivity | discriminate].
  - intros [[= <-] _]. reflexivity.
  - discriminate.
  - intros [H _]. discriminate.
Qed.

Lemma truthy_None (tables : schema) (query : string) :
  truthy (identify_table tables query) = None ->
  forall table, ~ resolved_table tables query table.
Proof.
  intros H table Hr. apply truthy_resolved in Hr. congruence.
Qed.

Lemma resolved_table_key (tables : schema) (query table : string) :
  resolved_table tables query table -> In table (keys tables).
Proof. intros [H _]. unfold identify_table in H. now apply find_some in H. Qed.

Lemma getitem_key (tables : schema) (table : string) :
  In table (keys tables) -> exists columns, getitem tables table = Ok columns.
Proof.
  induction tables as [|[k v] rest IH]; simpl; [intros []|].
  destruct (String.eqb k table) eqn:E; [now exists v|].
  intros [-> | H]; [rewrite String.eqb_refl in E; discriminate | now apply IH].
Qed.

Lemma has_key_key (tables : schema) (table : string) :
  In table (keys tables) -> has_key table tables = true.
Proof.
  intro H. unfold has_key. apply existsb_exists. exists table.
  split; [exact H | apply String.eqb_refl].
Qed.

(** The columns of the table that occur in the lower-cased sentence, in the
    order of the schema. *)
Definition mentioned_columns (query : string) (columns : list string) : list string :=
  filter (fun column => str_in column (lower query)) columns.

Lemma identify_columns_resolved (tables : schema) (query table : string) (columns : list string) :
  resolved_table tables query table -> getitem tables table = Ok columns ->
  identify_columns tables query table = Ok (mentioned_columns query columns).
Proof.
  intros Hr Hg. unfold identify_columns.
  rewrite (has_key_key _ _ (resolved_table_key _ _ _ Hr)).
  destruct Hr as [_ Hne]. apply String.eqb_neq in Hne. rewrite Hne. simpl.
  rewrite Hg. reflexivity.
Qed.

Lemma mentioned_columns_spec (query : string) (columns : list string) (column : string) :
  In column (mentioned_columns query columns)
  <-> In column columns /\ Substring column (lower query).
Proof. unfold mentioned_columns. now rewrite filter_In, str_in_spec. Qed.

Lemma mentioned_columns_nil (query : string) (columns : list string) :
  mentioned_columns query columns = []
  <-> forall column, In column columns -> ~ Substring column (lower query).
Proof.
  split.
  - intros E column Hin Hsub.
    assert (H : In column (mentioned_columns query columns))
      by now apply mentioned_columns_spec.
    rewrite E in H. destruct H.
  - intros H. destruct (mentioned_columns query columns) as [|c l] eqn:E; [reflexivity|].
    assert (Hc : In c (mentioned_columns query columns)) by (rewrite E; now left).
    apply mentioned_columns_spec in Hc as [Hin Hsub]. now elim (H c Hin).
Qed.

(** The WHERE part of SELECT, UPDATE and DELETE. *)
Definition where_part (conditions : list condition) : string :=
  match conditions with
  | [] => ""
  | _ => " WHERE " ++ where_clause conditions
  end.

Lemma generate_query_dispatch (tables : schema) (query : string) :
  (identify_query_type query = "SELECT"
   /\ generate_query tables query = generate_select_query tables query)
  \/ (identify_query_type query = "INSERT"
      /\ generate_query tables query = generate_insert_query tables query)
  \/ (identify_query_type query = "UPDATE"
      /\ generate_query tables query = generate_update_query tables query)
  \/ (identify_query_type query = "DELETE"
      /\ generate_query tables query = generate_delete_query tables query)
  \/ (identify_query_type query = "UNKNOWN"
      /\ generate_query tables query = Ok SORRY).
Proof.
  unfold generate_query, identify_query_type.
  destruct (any_keyword select_keywords (lower query)); [left; split; reflexivity|].
  destruct (any_keyword insert_keywords (lower query));
    [right; left; split; reflexivity|].
  destruct (any_keyword update_keywords (lower query));
    [right; right; left; split; reflexivity|].
  destruct (any_keyword delete_keywords (lower query));
    [right; right; right; left; split; reflexivity|].
  right; right; right; right; split; reflexivity.
Qed.

Lemma generate_select_query_resolved (tables : schema) (query table : string) :
  resolved_table tables query table ->
  exists columns conditions,
    getitem tables table = Ok columns
    /\ extract_conditions query = Ok conditions
    /\ generate_select_query tables query
       = Ok (("SELECT "
                ++ match mentioned_columns query columns with
                   | [] => "*"
                   | _ => join ", " (mentioned_columns query columns)
                   end
                ++ " FROM " ++ table ++ where_part conditions) ++ ";").
Proof.
  intros Hr.
  destruct (getitem_key _ _ (resolved_table_key _ _ _ Hr)) as [columns Hg].
  destruct (extract_conditions_total query) as [conditions [Hc _]].
  exists columns, conditions. split; [exact Hg|]. split; [exact Hc|].
  unfold generate_select_query.
  rewrite (proj2 (truthy_resolved _ _ _) Hr).
  rewrite (identify_columns_resolved _ _ _ _ Hr Hg), Hc. cbn [bind]. cbv zeta.
  unfold where_part.
  destruct conditions; rewrite ?append_nil_r, ?append_assoc; reflexivity.
Qed.

Lemma generate_delete_query_resolved (tables : schema) (query table : string) :
  resolved_table tables query table ->
  exists conditions,
    extract_conditions query = Ok conditions
    /\ generate_delete_query tables query
       = match conditions with
         | [] => Ok WARNING_DELETE
         | _ => Ok (("DELETE FROM " ++ table ++ where_part conditions) ++ ";")
         end.
Proof.
  intros Hr.
  destruct (extract_conditions_total query) as [conditions [Hc _]].
  exists conditions. split; [exact Hc|].
  unfold generate_delete_query.
  rewrite (proj2 (truthy_resolved _ _ _) Hr), Hc. cbn [bind]. cbv zeta.
  unfold where_part.
  destruct conditions; rewrite ?append_assoc; reflexivity.
Qed.

(** The column list of an INSERT: the mentioned columns, or else the columns
    of the schema but [id]. *)
Definition insert_columns (query : string) (columns : list string) : list string :=
  match mentioned_columns query columns with
  | [] => filter (fun col => negb (String.eqb col "id")) columns
  | mentioned => mentioned
  end.

Lemma generate_insert_query_resolved (tables : schema) (query table : string) :
  resolved_table tables query table ->
  exists columns,
    getitem tables table = Ok columns
    /\ ((search values_pattern (lower query) = None
         /\ generate_insert_query tables query = Ok ERROR_INSERT)
        \/ (exists m value_text,
              search values_pattern (lower query) = Some m
              /\ group_text m 1 = Ok value_text
              /\ generate_insert_query tables query
                 = Ok ("INSERT INTO " ++ table ++ " ("
                         ++ join ", " (insert_columns query columns)
                         ++ ") VALUES ("
                         ++ join ", " (map format_value (map strip (split "," value_text)))
                         ++ ");"))).
Proof.
  intros Hr.
  destruct (getitem_key _ _ (resolved_table_key _ _ _ Hr)) as [columns Hg].
  exists columns. split; [exact Hg|].
  unfold generate_insert_query.
  rewrite (proj2 (truthy_resolved _ _ _) Hr).
  destruct (search values_pattern (lower query)) as [m|] eqn:Es; [right | left; auto].
  destruct (match_of_group _ _ _ 1 (search_match_of _ _ _ Es) eq_refl) as [value_text Hv].
  exists m, value_text. split; [reflexivity|]. split; [exact Hv|].
  rewrite Hv, (identify_columns_resolved _ _ _ _ Hr Hg). cbn [bind].
  unfold insert_columns.
  destruct (mentioned_columns query columns); [rewrite Hg|]; reflexivity.
Qed.

Lemma set_clause_of_match_groups (m : Match) (column value : string) :
  group_text m 1 = Ok column -> group_text m 2 = Ok value ->
  set_clause_of_match m = Ok (column ++ " = " ++ quote_value value).
Proof. intros H1 H2. unfold set_clause_of_match. now rewrite H1, H2. Qed.

(** A SET clause: a column, the equal sign, a quoted value. *)
Definition set_clause_shape (clause : string) : Prop :=
  exists column value, clause = column ++ " = " ++ quote_value value.

Lemma set_clauses_total (query : string) :
  exists set_clauses,
    mapM set_clause_of_match (finditer set_pattern (lower query)) = Ok set_clauses
    /\ Forall set_clause_shape set_clauses.
Proof.
  assert (Hall : forall m, In m (finditer set_pattern (lower query)) ->
                 exists column value,
                   set_clause_of_match m = Ok (column ++ " = " ++ quote_value value)).
  { intros m Hm. apply finditer_match_of in Hm.
    destruct (match_of_group _ _ _ 1 Hm eq_refl) as [column H1].
    destruct (match_of_group _ _ _ 2 Hm eq_refl) as [value H2].
    exists column, value. now apply set_clause_of_match_groups. }
  destruct (mapM_total set_clause_of_match (finditer set_pattern (lower query)))
    as [set_clauses E].
  { intros m Hm. destruct (Hall m Hm) as [column [value H]]. eexists. exact H. }
  exists set_clauses. split; [exact E|].
  apply mapM_Forall2 in E. apply Forall_forall. intros clause Hin.
  destruct (Forall2_In_r _ _ _ _ E Hin) as [m [Hm Hc]].
  destruct (Hall m Hm) as [column [value H]].
  exists column, value. congruence.
Qed.

Lemma generate_update_query_resolved (tables : schema) (query table : string) :
  resolved_table tables query table ->
  exists set_clauses conditions,
    mapM set_clause_of_match (finditer set_pattern (lower query)) = Ok set_clauses
    /\ Forall set_clause_shape set_clauses
    /\ extract_conditions query = Ok conditions
    /\ generate_update_query tables query
       = match set_clauses with
         | [] => Ok ERROR_UPDATE
         | _ => Ok (("UPDATE " ++ table ++ " SET " ++ join ", " set_clauses
                      ++ where_part conditions) ++ ";")
         end.
Proof.
  intros Hr.
  destruct (set_clauses_total query) as [set_clauses [Es Hs]].
  destruct (extract_conditions_total query) as [conditions [Hc _]].
  exists set_clauses, conditions. repeat (split; [assumption|]).
  unfold generate_update_query.
  rewrite (proj2 (truthy_resolved _ _ _) Hr), Es. cbn [bind].
  destruct set_clauses as [|clause rest]; [reflexivity|].
  rewrite Hc. cbn [bind]. cbv zeta. unfold where_part.
  destruct conditions; rewrite ?append_nil_r, ?append_assoc; reflexivity.
Qed.

Lemma generate_unresolved (tables : schema) (query : string) :
  truthy (identify_table tables query) = None ->
  generate_select_query tables query = Ok ERROR_TABLE
  /\ generate_insert_query tables query = Ok ERROR_TABLE
  /\ generate_update_query tables query = Ok ERROR_TABLE
  /\ generate_delete_query tables query = Ok ERROR_TABLE.
Proof.
  intro H.
  unfold generate_select_query, generate_insert_query, generate_update_query,
    generate_delete_query.
  rewrite H. auto.
Qed.

End Builders.

(** ** No DELETE without a condition *)

Section DeleteGuard.

Lemma truthy_cases (tables : schema) (query : string) :
  truthy (identify_table tables query) = None
  \/ exists table, resolved_table tables query table.
Proof.
  destruct (truthy (identify_table tables query)) as [table|] eqn:E; [right | now left].
  exists table. now apply truthy_resolved.
Qed.

(** C1: a sentence classified DELETE, with a table resolved and no condition
    extracted, is answered with the warning, which does not contain
    [DELETE FROM]; and whenever the translation of a sentence begins with
    [DELETE FROM], at least one condition was extracted from the sentence and
    the statement carries the WHERE clause made of the conditions. *)
Theorem delete_needs_condition
  (tables : schema) (query table : string)
  (Htype : identify_query_type query = "DELETE")
  (Htable : resolved_table tables query table)
  (Hnone : extract_conditions query = Ok []) :
  generate_query tables query = Ok WARNING_DELETE
  /\ ~ Substring "DELETE FROM" WARNING_DELETE
  /\ (forall sentence sql,
        generate_query tables sentence = Ok sql ->
        startswith "DELETE FROM" sql = true ->
        exists target c cs,
          resolved_table tables sentence target
          /\ extract_conditions sentence = Ok (c :: cs)
          /\ sql = ("DELETE FROM " ++ target ++ " WHERE " ++ where_clause (c :: cs)) ++ ";").
Proof.
  split; [|split].
  - destruct (generate_query_dispatch tables query)
      as [[E _] | [[E _] | [[E _] | [[_ E] | [E _]]]]];
      try (rewrite Htype in E; discriminate E).
    rewrite E.
    destruct (generate_delete_query_resolved tables query table Htable)
      as [conditions [Hc ->]].
    rewrite Hnone in Hc. injection Hc as <-. reflexivity.
  - apply str_in_false. vm_compute. reflexivity.
  - intros sentence sql Hsql Hhead.
    destruct (truthy_cases tables sentence) as [Hno | [target Hr]].
    + destruct (generate_unresolved tables sentence Hno) as [E1 [E2 [E3 E4]]].
      destruct (generate_query_dispatch tables sentence)
        as [[_ E] | [[_ E] | [[_ E] | [[_ E] | [_ E]]]]];
        rewrite E in Hsql; rewrite ?E1, ?E2, ?E3, ?E4 in Hsql;
        injection Hsql as <-; vm_compute in Hhead; discriminate Hhead.
    + destruct (generate_query_dispatch tables sentence)
        as [[_ E] | [[_ E] | [[_ E] | [[_ E] | [_ E]]]]];
        rewrite E in Hsql.
      * destruct (generate_select_query_resolved tables sentence target Hr)
          as [columns [conditions [_ [_ E']]]].
        rewrite E' in Hsql. injection Hsql as <-. cbn in Hhead. discriminate Hhead.
      * destruct (generate_insert_query_resolved tables sentence target Hr)
          as [columns [_ [[_ E'] | [m [text [_ [_ E']]]]]]];
          rewrite E' in Hsql; injection Hsql as <-; cbn in Hhead; discriminate Hhead.
      * destruct (generate_update_query_resolved tables sentence target Hr)
          as [clauses [conditions [_ [_ [_ E']]]]].
        rewrite E' in Hsql. destruct clauses; injection Hsql as <-;
          cbn in Hhead; discriminate Hhead.
      * destruct (generate_delete_query_resolved tables sentence target Hr)
          as [conditions [Hc E']].
        rewrite E' in Hsql. destruct conditions as [|c cs].
        -- injection Hsql as <-. vm_compute in Hhead. discriminate Hhead.
        -- injection Hsql as <-. exists target, c, cs.
           split; [exact Hr|]. split; [exact Hc|]. reflexivity.
      * injection Hsql as <-. vm_compute in Hhead. discriminate Hhead.
Qed.

(** [delete all orders] names a table and has no condition. *)
Lemma delete_needs_condition_witness :
  generate_query default_schema "delete all orders" = Ok WARNING_DELETE.
Proof.
  refine (proj1 (delete_needs_condition default_schema "delete all orders" "orders" _ _ _)).
  - vm_compute. reflexivity.
  - split; [vm_compute; reflexivity | discriminate].
  - vm_compute. reflexivity.
Defined.

End DeleteGuard.

(** ** The columns of an INSERT *)

Section InsertColumns.

(** C8: for a sentence dispatched to INSERT with a table resolved, either no
    values are found and the answer is the error for that, or the statement is
    an INSERT into the table whose column list is: when no column of the table
    occurs in the lower-cased sentence, the columns of the schema in their
    order without those named [id]; when at least one occurs, the columns that
    occur, in the order of the schema, [id] among them if it occurs. *)
Theorem insert_default_columns
  (tables : schema) (query table : string)
  (Htype : identify_query_type query = "INSERT")
  (Htable : resolved_table tables query table) :
  exists schema_columns,
    getitem tables table = Ok schema_columns
    /\ ((search values_pattern (lower query) = None
         /\ generate_query tables query = Ok ERROR_INSERT)
        \/ (exists columns values_clause,
              generate_query tables query
              = Ok ("INSERT INTO " ++ table ++ " (" ++ join ", " columns
                      ++ ") VALUES (" ++ values_clause ++ ");")
              /\ ((forall column, In column schema_columns ->
                                  ~ Substring column (lower query)) ->
                  columns = filter (fun col => negb (String.eqb col "id")) schema_columns)
              /\ ((exists column, In column schema_columns
                                  /\ Substring column (lower query)) ->
                  columns = mentioned_columns query schema_columns
                  /\ (In "id" schema_columns -> Substring "id" (lower query) ->
                      In "id" columns)))).
Proof.
  destruct (generate_query_dispatch tables query)
    as [[E _] | [[_ E] | [[E _] | [[E _] | [E _]]]]];
    try (rewrite Htype in E; discriminate E).
  rewrite E.
  destruct (generate_insert_query_resolved tables query table Htable)
    as [schema_columns [Hg [[Hs E'] | [m [text [Hs [Hv E']]]]]]];
    exists schema_columns; (split; [exact Hg|]); [left; now split | right].
  exists (insert_columns query schema_columns),
         (join ", " (map format_value (map strip (split "," text)))).
  split; [exact E'|]. unfold insert_columns. split.
  - intros Hnone. apply mentioned_columns_nil in Hnone. now rewrite Hnone.
  - intros [column [Hin Hsub]].
    assert (Hm : In column (mentioned_columns query schema_columns))
      by now apply mentioned_columns_spec.
    destruct (mentioned_columns query schema_columns) as [|c l] eqn:Em; [destruct Hm|].
    split; [reflexivity|]. intros Hid Hidsub.
    rewrite <- Em. now apply mentioned_columns_spec.
Qed.

(** [add order values 5, 7] mentions no column of [orders]. *)
Lemma insert_default_columns_witness :
  exists schema_columns,
    getitem default_schema "orders" = Ok schema_columns
    /\ ((search values_pattern (lower "add order values 5, 7") = None
         /\ generate_query default_schema "add order values 5, 7" = Ok ERROR_INSERT)
        \/ (exists columns values_clause,
              generate_query default_schema "add order values 5, 7"
              = Ok ("INSERT INTO " ++ "orders" ++ " (" ++ join ", " columns
                      ++ ") VALUES (" ++ values_clause ++ ");")
              /\ ((forall column, In column schema_columns ->
                                  ~ Substring column (lower "add order values 5, 7")) ->
                  columns = filter (fun col => negb (String.eqb col "id")) schema_columns)
              /\ ((exists column, In column schema_columns
                                  /\ Substring column (lower "add order values 5, 7")) ->
                  columns = mentioned_columns "add order values 5, 7" schema_columns
                  /\ (In "id" schema_columns ->
                      Substring "id" (lower "add order values 5, 7") ->
                      In "id" columns)))).
Proof.
  apply (insert_default_columns default_schema "add order values 5, 7" "orders").
  - vm_compute. reflexivity.
  - split; [vm_compute; reflexivity | discriminate].
Defined.

(** The two cases of C8 on the built-in schema. *)
Example insert_without_columns :
  generate_query default_schema "add order values 5, 7"
  = Ok "INSERT INTO orders (user_id, total, status, order_date) VALUES (5, 7);".
Proof. vm_compute. reflexivity. Qed.

Example insert_with_id_mentioned :
  generate_query default_schema "add order with id and total values 5, 7"
  = Ok "INSERT INTO orders (id, total) VALUES (5, 7);".
Proof. vm_compute. reflexivity. Qed.

End InsertColumns.

(** ** The translation always returns a statement or a sentinel *)

Section Totality.




















(** A schema with a table whose name ends with a semicolon: the name is put
    in the statement as it is, before the semicolon that ends the statement. *)
Example table_name_with_semicolon :
  generate_query [("t;", ["a"])] "show t;" = Ok "SELECT * FROM t;;".
Proof. vm_compute. reflexivity. Qed.

End Totality.

(** ** The operator of a condition *)

Section Operator.

(** The first of the five patterns: [where <col> is|=|equals|equal to <value>]. *)
Definition pattern1 : regex := nth 0 where_patterns (Lit "").

(** The operator the code chooses for a matched text: the tests are made on
    the whole text, in this order, whatever the pattern that matched. *)
Definition operator_for (text operator : string) : Prop :=
  let gt := Substring "greater than" text \/ Substring ">" text in
  let lt := Substring "less than" text \/ Substring "<" text in
  let like := Substring "like" text in
  let within := Substring "in" text in
  (gt /\ operator = ">")
  \/ (~ gt /\ lt /\ operator = "<")
  \/ (~ gt /\ ~ lt /\ like /\ operator = "LIKE")
  \/ (~ gt /\ ~ lt /\ ~ like /\ within /\ operator = "IN")
  \/ (~ gt /\ ~ lt /\ ~ like /\ ~ within /\ operator = "=").

Lemma str_in_or (a b s : string) :
  str_in a s || str_in b s = true <-> Substring a s \/ Substring b s.
Proof. now rewrite orb_true_iff, !str_in_spec. Qed.

Lemma str_in_or_false (a b s : string) :
  str_in a s || str_in b s = false <-> ~ (Substring a s \/ Substring b s).
Proof.
  rewrite <- str_in_or. destruct (str_in a s || str_in b s); split; intro H;
    try reflexivity; try discriminate; try congruence.
Qed.

Lemma condition_of_match_operator (m : Match) (column value : string) :
  group_text m 1 = Ok column -> group_text m 2 = Ok value ->
  exists operator,
    condition_of_match m = Ok (column, operator, quote_value value)
    /\ operator_for (group0 m) operator.
Proof.
  intros H1 H2. unfold condition_of_match. rewrite H1, H2. cbn [bind].
  unfold operator_for.
  destruct (str_in "greater than" (group0 m) || str_in ">" (group0 m)) eqn:Egt.
  { apply str_in_or in Egt. eexists. split; [reflexivity | left; auto]. }
  apply str_in_or_false in Egt.
  destruct (str_in "less than" (group0 m) || str_in "<" (group0 m)) eqn:Elt.
  { apply str_in_or in Elt. eexists. split; [reflexivity | right; left; auto]. }
  apply str_in_or_false in Elt.
  destruct (str_in "like" (group0 m)) eqn:Elike.
  { apply str_in_spec in Elike. eexists. split; [reflexivity | right; right; left; auto]. }
  apply str_in_false in Elike.
  destruct (str_in "in" (group0 m)) eqn:Ein.
  { apply str_in_spec in Ein. eexists.
    split; [reflexivity | right; right; right; left; auto]. }
  apply str_in_false in Ein.
  eexists. split; [reflexivity | right; right; right; right; auto 6].
Qed.

(** The parts of a match of the first pattern. *)
Lemma pattern1_parts (s : string) (m : Match) :
  match_of pattern1 s m ->
  exists column keyword value,
    group0 m = "where " ++ column ++ " " ++ keyword ++ " " ++ value
    /\ In keyword ["is"; "="; "equals"; "equal to"]
    /\ all_in re_word column = true /\ column <> ""
    /\ group_text m 1 = Ok column
    /\ group_text m 2 = Ok value.
Proof.
  intros [pre [rest [_ H]]].
  change pattern1 with
    (Seq (Lit "where ") (Seq (Group 1 (Plus re_word)) (Seq (Lit " ")
       (Seq (Alt (Lit "is") (Alt (Lit "=") (Alt (Lit "equals") (Lit "equal to"))))
          (Seq (Lit " ")
             (Group 2 (Alt (Plus re_word) (Alt (Plus re_digit)
                (Alt (Seq (Lit "'") (Seq (Plus (re_not "'")) (Lit "'")))
                     (Seq (Lit dquote) (Seq (Plus (re_not dquote_char)) (Lit dquote)))))))))))) in H.
  apply rmatch_Seq in H as [g1 [m1 [r1 [t1 [H1 [H E1]]]]]].
  apply rmatch_Lit in H1 as [-> [-> _]].
  apply rmatch_Seq in H as [g2 [m2 [r2 [t2 [H2 [H E2]]]]]].
  apply rmatch_Group in H2 as [g2' [H2 ->]].
  apply rmatch_Plus in H2 as [-> [_ [Hword Hne]]].
  apply rmatch_Seq in H as [g3 [m3 [r3 [t3 [H3 [H E3]]]]]].
  apply rmatch_Lit in H3 as [-> [-> _]].
  apply rmatch_Seq in H as [g4 [m4 [r4 [t4 [H4 [H E4]]]]]].
  apply rmatch_Seq in H as [g5 [m5 [r5 [t5 [H5 [H E5]]]]]].
  apply rmatch_Lit in H5 as [-> [-> _]].
  apply rmatch_Group in H as [g6 [H Hcap]].
  assert (Hg4 : g4 = [(1, m2)] /\ In m4 ["is"; "="; "equals"; "equal to"]).
  { apply rmatch_Alt in H4 as [H4 | H4]; [apply rmatch_Lit in H4 as [-> [-> _]]; simpl; auto|].
    apply rmatch_Alt in H4 as [H4 | H4]; [apply rmatch_Lit in H4 as [-> [-> _]]; simpl; auto|].
    apply rmatch_Alt in H4 as [H4 | H4]; apply rmatch_Lit in H4 as [-> [-> _]];
      simpl; auto 6. }
  destruct Hg4 as [-> Hkw].
  assert (Hg6 : g6 = [(1, m2)]).
  { apply rmatch_Alt in H as [H | H]; [now apply rmatch_Plus in H|].
    apply rmatch_Alt in H as [H | H]; [now apply rmatch_Plus in H|].
    apply rmatch_Alt in H as [H | H];
      apply rmatch_Seq in H as [ga [ma [ra [ta [Ha [H _]]]]]];
      apply rmatch_Lit in Ha as [-> _];
      apply rmatch_Seq in H as [gb [mb [rb [tb [Hb [H _]]]]]];
      apply rmatch_Plus in Hb as [-> _];
      now apply rmatch_Lit in H. }
  subst g6.
  exists m2, m4, t5. subst.
  repeat split; try assumption.
  - unfold group_text, group. rewrite Hcap. reflexivity.
  - unfold group_text, group. rewrite Hcap. reflexivity.
Qed.

(** C4, as the code has it: for every match of the first pattern in the
    lower-cased sentence, the matched text is [where], a column, one of the
    four keywords and a value, and the operator of the condition is decided by
    the tests on the whole matched text in the order of the code: [>] when it
    contains [greater than] or [>]; else [<] when it contains [less than] or
    [<]; else [LIKE] when it contains [like]; else [IN] when it contains [in];
    else [=]. *)
Theorem pattern1_operator (query : string) (m : Match)
  (Hm : In m (finditer pattern1 (lower query))) :
  exists column keyword value operator,
    group0 m = "where " ++ column ++ " " ++ keyword ++ " " ++ value
    /\ In keyword ["is"; "="; "equals"; "equal to"]
    /\ Substring (group0 m) (lower query)
    /\ condition_of_match m = Ok (column, operator, quote_value value)
    /\ operator_for (group0 m) operator.
Proof.
  apply finditer_match_of in Hm.
  destruct (pattern1_parts _ _ Hm) as [column [keyword [value [E [Hk [_ [_ [H1 H2]]]]]]]].
  destruct (condition_of_match_operator m column value H1 H2) as [operator [Hc Ho]].
  exists column, keyword, value, operator.
  repeat (split; [assumption|]). split; [|split; assumption].
  destruct Hm as [pre [rest [Hs _]]]. now exists pre, rest.
Qed.

(** The match of [where login is bob]: the column [login] contains [in]. *)
Definition login_match : Match := mkMatch "where login is bob" [(2, "bob"); (1, "login")].

Lemma login_match_found :
  In login_match (finditer pattern1 (lower "show users where login is bob")).
Proof. vm_compute. left. reflexivity. Qed.

Lemma pattern1_operator_witness :
  exists column keyword value operator,
    group0 login_match = "where " ++ column ++ " " ++ keyword ++ " " ++ value
    /\ In keyword ["is"; "="; "equals"; "equal to"]
    /\ Substring (group0 login_match) (lower "show users where login is bob")
    /\ condition_of_match login_match = Ok (column, operator, quote_value value)
    /\ operator_for (group0 login_match) operator.
Proof.
  apply (pattern1_operator "show users where login is bob" login_match).
  vm_compute. left. reflexivity.
Defined.

(** The claim of C4 as it is worded fails: a match of the first pattern can
    give the operator [IN]. *)
Lemma pattern1_operator_not_only_comparison :
  ~ (forall query m column operator value,
       In m (finditer pattern1 (lower query)) ->
       condition_of_match m = Ok (column, operator, value) ->
       operator = "=" \/ operator = ">" \/ operator = "<").
Proof.
  intro H.
  destruct (H "show users where login is bob" login_match "login" "IN" "'bob'"
              login_match_found eq_refl) as [E | [E | E]]; discriminate E.
Qed.

(** The same on whole sentences: [IN] and [LIKE] from the first pattern. *)
Example login_is_bob :
  generate_query default_schema "show users where login is bob"
  = Ok "SELECT * FROM users WHERE login IN 'bob';".
Proof. vm_compute. reflexivity. Qed.

Example name_is_alike :
  generate_query default_schema "show users where name is alike"
  = Ok "SELECT name FROM users WHERE name LIKE 'alike';".
Proof. vm_compute. reflexivity. Qed.

End Operator.

(** * Further properties of the engine *)

(** ** Letter case *)

Section LetterCase.

Lemma lower_char_idempotent (c : ascii) : lower_char (lower_char c) = lower_char c.
Proof. destruct c as [[] [] [] [] [] [] [] []]; vm_compute; reflexivity. Qed.

Lemma lower_append (a b : string) : lower (a ++ b) = lower a ++ lower b.
Proof. induction a as [|x a IH]; simpl; [reflexivity | now rewrite IH]. Qed.

Lemma lower_idempotent (s : string) : lower (lower s) = lower s.
Proof.
  induction s as [|c s IH]; simpl; [reflexivity|].
  now rewrite lower_char_idempotent, IH.
Qed.

(** The characters that [lower] leaves as they are. *)
Definition lower_fixed (c : ascii) : bool := Ascii.eqb (lower_char c) c.

Lemma all_in_append (cls : ascii -> bool) (a b : string) :
  all_in cls (a ++ b) = all_in cls a && all_in cls b.
Proof.
  induction a as [|x a IH]; simpl; [reflexivity|].
  now rewrite IH, andb_assoc.
Qed.

Lemma all_in_lower (s : string) : all_in lower_fixed (lower s) = true.
Proof.
  induction s as [|c s IH]; simpl; [reflexivity|].
  rewrite IH, andb_true_r. unfold lower_fixed.
  rewrite lower_char_idempotent. apply Ascii.eqb_refl.
Qed.

Lemma all_in_lower_fixed (k : string) : all_in lower_fixed k = true <-> lower k = k.
Proof.
  induction k as [|c k IH]; simpl; [split; reflexivity|].
  rewrite andb_true_iff, IH. unfold lower_fixed. rewrite Ascii.eqb_eq. split.
  - intros [-> ->]. reflexivity.
  - intros [= H1 H2]. now split.
Qed.

(** What occurs in a lower-cased text is in lower case itself. *)
Lemma substring_lower_fixed (k s : string) : Substring k (lower s) -> lower k = k.
Proof.
  intros [pre [suf E]]. apply all_in_lower_fixed.
  pose proof (all_in_lower s) as H. rewrite E, !all_in_append in H.
  apply andb_true_iff in H as [_ H]. now apply andb_true_iff in H as [H _].
Qed.

Lemma drop_last_lower (s : string) : drop_last (lower s) = lower (drop_last s).
Proof.
  induction s as [|c s IH]; [reflexivity|].
  destruct s as [|d s']; [reflexivity|].
  change (drop_last (lower (String c (String d s'))))
    with (String (lower_char c) (drop_last (lower (String d s')))).
  rewrite IH. reflexivity.
Qed.

Lemma identify_query_type_lower (q1 q2 : string) :
  lower q1 = lower q2 -> identify_query_type q1 = identify_query_type q2.
Proof. intro H. unfold identify_query_type. now rewrite H. Qed.

Lemma identify_table_lower (tables : schema) (q1 q2 : string) :
  lower q1 = lower q2 -> identify_table tables q1 = identify_table tables q2.
Proof. intro H. unfold identify_table. now rewrite H. Qed.

Lemma identify_columns_lower (tables : schema) (q1 q2 table : string) :
  lower q1 = lower q2 ->
  identify_columns tables q1 table = identify_columns tables q2 table.
Proof. intro H. unfold identify_columns. now rewrite H. Qed.

Lemma extract_conditions_lower (q1 q2 : string) :
  lower q1 = lower q2 -> extract_conditions q1 = extract_conditions q2.
Proof. intro H. unfold extract_conditions, conditions_of_pattern. now rewrite H. Qed.

(** The translation reads the sentence only through its lower-casing: two
    sentences that differ in letter case only are translated to the same
    result, by each builder and by [generate_query]. *)
Theorem generate_query_case_insensitive (tables : schema) (q1 q2 : string)
  (Hcase : lower q1 = lower q2) :
  identify_query_type q1 = identify_query_type q2
  /\ generate_select_query tables q1 = generate_select_query tables q2
  /\ generate_insert_query tables q1 = generate_insert_query tables q2
  /\ generate_update_query tables q1 = generate_update_query tables q2
  /\ generate_delete_query tables q1 = generate_delete_query tables q2
  /\ generate_query tables q1 = generate_query tables q2.
Proof.
  pose proof (identify_query_type_lower q1 q2 Hcase) as Hty.
  pose proof (identify_table_lower tables q1 q2 Hcase) as Htab.
  pose proof (extract_conditions_lower q1 q2 Hcase) as Hcond.
  assert (Hs : generate_select_query tables q1 = generate_select_query tables q2).
  { unfold generate_select_query. rewrite Htab, Hcond.
    destruct (truthy (identify_table tables q2)) as [t|]; [|reflexivity].
    now rewrite (identify_columns_lower tables q1 q2 t Hcase). }
  assert (Hi : generate_insert_query tables q1 = generate_insert_query tables q2).
  { unfold generate_insert_query. rewrite Htab, Hcase.
    destruct (truthy (identify_table tables q2)) as [t|]; [|reflexivity].
    now rewrite (identify_columns_lower tables q1 q2 t Hcase). }
  assert (Hu : generate_update_query tables q1 = generate_update_query tables q2).
  { unfold generate_update_query. now rewrite Htab, Hcase, Hcond. }
  assert (Hd : generate_delete_query tables q1 = generate_delete_query tables q2).
  { unfold generate_delete_query. now rewrite Htab, Hcond. }
  repeat split; try assumption.
  unfold generate_query. now rewrite Hty, Hs, Hi, Hu, Hd.
Qed.

(** A sentence in capitals and the same sentence in small letters. *)
Lemma generate_query_case_insensitive_witness :
  generate_query default_schema "SHOW Users WHERE Name IS Bob"
  = generate_query default_schema "show users where name is bob".
Proof.
  refine (proj2 (proj2 (proj2 (proj2 (proj2
    (generate_query_case_insensitive default_schema
       "SHOW Users WHERE Name IS Bob" "show users where name is bob" _)))))).
  vm_compute. reflexivity.
Defined.

(** The names of the schema are not lower-cased: they are looked for, as they
    are written, in the lower-cased sentence.  So the table [identify_table]
    returns has no upper-case letter before its last character, and the
    columns [identify_columns] returns have none at all; a name with such a
    letter is never found. *)
Theorem schema_names_case_sensitive (tables : schema) (query : string) :
  (forall table, identify_table tables query = Some table ->
                 lower (drop_last table) = drop_last table)
  /\ (forall table columns column,
        identify_columns tables query table = Ok columns ->
        In column columns -> lower column = column).
Proof.
  split.
  - intros table H. unfold identify_table in H. apply find_some in H as [_ H].
    apply orb_true_iff in H as [H | H]; apply str_in_spec in H.
    + apply substring_lower_fixed in H.
      rewrite <- drop_last_lower. now rewrite H.
    + now apply substring_lower_fixed in H.
  - intros table columns column H Hin. unfold identify_columns in H.
    destruct (String.eqb table "" || negb (has_key table tables)).
    + injection H as <-. destruct Hin.
    + destruct (getitem tables table) as [all|e]; simpl in H; [|discriminate].
      injection H as <-. apply filter_In in Hin as [_ Hin].
      apply str_in_spec in Hin. now apply substring_lower_fixed in Hin.
Qed.

(** A table written with a capital is not found, whatever the sentence. *)
Example capital_table_not_found :
  identify_table [("Users", ["id"])] "show Users" = None
  /\ generate_query [("Users", ["id"])] "show Users" = Ok ERROR_TABLE.
Proof. split; vm_compute; reflexivity. Qed.

End LetterCase.

(** ** Resolution of tables and columns *)

Section Resolution.

(** The sentence names the table: the name, or the name without its last
    character, occurs in the lower-cased sentence. *)
Definition names_table (query table : string) : Prop :=
  Substring table (lower query) \/ Substring (drop_last table) (lower query).

Lemma table_matches_names (query table : string) :
  table_matches query table = true <-> names_table query table.
Proof.
  unfold table_matches, names_table. now rewrite orb_true_iff, !str_in_spec.
Qed.

Lemma find_first {A : Type} (f : A -> bool) (l : list A) (x : A) :
  find f l = Some x <->
  exists before after,
    l = (before ++ x :: after)%list /\ f x = true /\ forall y, In y before -> f y = false.
Proof.
  induction l as [|a l IH]; simpl.
  - split; [discriminate|]. intros [before [after [E _]]].
    destruct before; discriminate.
  - destruct (f a) eqn:Ea.
    + split.
      * intros [= <-]. exists [], l. repeat split; [exact Ea | intros y []].
      * intros [before [after [E [_ Hb]]]]. destruct before as [|b before].
        -- now injection E as ->.
        -- injection E as <- _. rewrite (Hb a (or_introl eq_refl)) in Ea. discriminate.
    + rewrite IH. split.
      * intros [before [after [-> [Hx Hb]]]]. exists (a :: before), after.
        repeat split; [exact Hx|]. intros y [<- | Hy]; [exact Ea | now apply Hb].
      * intros [before [after [E [Hx Hb]]]]. destruct before as [|b before].
        -- injection E as <- _. congruence.
        -- injection E as <- ->. exists before, after.
           repeat split; [exact Hx|]. intros y Hy. apply Hb. now right.
Qed.

(** [identify_table] returns the first table, in the order of the schema,
    that the sentence names: a table is returned exactly when the sentence
    names it and names none of the tables before it; [None] is returned
    exactly when the sentence names no table of the schema. *)
Theorem identify_table_first_match (tables : schema) (query : string) :
  (forall table,
     identify_table tables query = Some table <->
     exists before after,
       keys tables = (before ++ table :: after)%list
       /\ names_table query table
       /\ forall other, In other before -> ~ names_table query other)
  /\ (identify_table tables query = None <->
      forall table, In table (keys tables) -> ~ names_table query table).
Proof.
  split.
  - intros table. unfold identify_table. rewrite find_first. split.
    + intros [before [after [E [Hx Hb]]]]. exists before, after.
      split; [exact E|]. split; [now apply table_matches_names|].
      intros other Ho Hn. apply table_matches_names in Hn.
      specialize (Hb other Ho). unfold table_matches in Hn. congruence.
    + intros [before [after [E [Hx Hb]]]]. exists before, after.
      split; [exact E|]. split; [now apply table_matches_names in Hx|].
      intros other Ho.
      destruct (str_in other (lower query) || str_in (drop_last other) (lower query))
        eqn:Em; [|reflexivity].
      elim (Hb other Ho). now apply table_matches_names.
  - unfold identify_table. split.
    + intros H table Hin Hn. apply table_matches_names in Hn.
      pose proof (find_none _ _ H table Hin) as Hf. unfold table_matches in Hn. congruence.
    + intros H.
      destruct (find _ (keys tables)) as [table|] eqn:E; [|reflexivity].
      apply find_some in E as [Hin Hm]. elim (H table Hin).
      now apply table_matches_names.
Qed.

(** A sentence that names two tables is given the one that comes first in the
    schema, not the one that comes first in the sentence. *)
Example orders_of_users :
  identify_table default_schema "show orders of users" = Some "users".
Proof. vm_compute. reflexivity. Qed.

(** [identify_columns] never raises: for the empty name and for a name that
    is no key of the schema it returns the empty list, and for a key it
    returns the columns of that table that occur in the lower-cased sentence,
    in the order of the schema. *)
Theorem identify_columns_total (tables : schema) (query table : string) :
  exists columns,
    identify_columns tables query table = Ok columns
    /\ (table = "" -> columns = [])
    /\ (~ In table (keys tables) -> columns = [])
    /\ (table <> "" -> forall all, getitem tables table = Ok all ->
          columns = mentioned_columns query all)
    /\ (forall column, In column columns -> Substring column (lower query)).
Proof.
  unfold identify_columns.
  destruct (String.eqb table "") eqn:Ee.
  - apply String.eqb_eq in Ee. exists []. simpl.
    repeat split; auto; [intros Hne; congruence | intros column []].
  - apply String.eqb_neq in Ee. simpl.
    destruct (has_key table tables) eqn:Ek; simpl.
    + unfold has_key in Ek. apply existsb_exists in Ek as [k [Hk Ekk]].
      apply String.eqb_eq in Ekk. subst k.
      destruct (getitem_key tables table Hk) as [all Hg]. rewrite Hg. simpl.
      exists (mentioned_columns query all). repeat split.
      * intros ->. now elim Ee.
      * intros Hn. now elim Hn.
      * intros _ all' Hg'. congruence.
      * intros column Hin. now apply mentioned_columns_spec in Hin.
    + exists []. repeat split; auto.
      * intros _ all Hg. exfalso.
        assert (Hk : In table (keys tables)).
        { clear Ek. induction tables as [|[k v] rest IH]; simpl in *; [discriminate|].
          destruct (String.eqb k table) eqn:E; [left; now apply String.eqb_eq | right; auto]. }
        unfold has_key in Ek. rewrite (proj2 (existsb_exists _ _)) in Ek; [discriminate|].
        exists table. split; [exact Hk | apply String.eqb_refl].
      * intros column [].
Qed.

End Resolution.

(** ** What the conditions are made of *)

Section ConditionShape.

(** The pattern has a group with this number. *)
Fixpoint has_group (n : nat) (r : regex) : bool :=
  match r with
  | Group k r1 => Nat.eqb k n || has_group n r1
  | Seq r1 r2 | Alt r1 r2 => has_group n r1 || has_group n r2
  | Opt r1 => has_group n r1
  | Lit _ | Plus _ | Star _ => false
  end.

(** A pattern without group [n] leaves group [n] as it was. *)
Lemma rmatch_other_group (n : nat) (r : regex) :
  forall g g' s m rest,
    In (g', m, rest) (rmatch r g s) -> has_group n r = false -> lookup n g' = lookup n g.
Proof.
  induction r as [l | cls | cls | r IH | r1 IH1 r2 IH2 | r1 IH1 r2 IH2 | k r IH];
    intros g g' s m rest H Hn; simpl in Hn.
  - now apply rmatch_Lit in H as [-> _].
  - now apply rmatch_Plus in H as [-> _].
  - now apply rmatch_Star in H as [-> _].
  - apply rmatch_Opt in H as [H | [-> _]]; [now apply IH in H | reflexivity].
  - apply orb_false_iff in Hn as [Hn1 Hn2].
    apply rmatch_Alt in H as [H | H]; [now apply IH1 in H | now apply IH2 in H].
  - apply orb_false_iff in Hn as [Hn1 Hn2].
    apply rmatch_Seq in H as [g1 [m1 [rest1 [m2 [H1 [H2 _]]]]]].
    rewrite (IH2 _ _ _ _ _ H2 Hn2). now apply IH1 in H1.
  - apply orb_false_iff in Hn as [Hk Hn].
    apply rmatch_Group in H as [g1 [H ->]]. simpl. rewrite Hk. now apply IH in H.
Qed.

(** Every one of the five patterns is [where], a space, the column as group 1
    and a rest that starts with a space. *)
Lemma where_pattern_parts (pattern : regex) (s : string) (m : Match) :
  In pattern where_patterns -> match_of pattern s m ->
  exists column tail,
    group0 m = "where " ++ column ++ " " ++ tail
    /\ all_in re_word column = true /\ column <> ""
    /\ group_text m 1 = Ok column.
Proof.
  intros Hp [pre [rest [_ H]]].
  assert (Hlit : forall l g g' t x r,
             In (g', x, r) (rmatch (Lit (String " " l)) g t) ->
             g' = g /\ x = " " ++ l).
  { intros l g g' t x r Hl. apply rmatch_Lit in Hl as [-> [-> _]]. now split. }
  repeat (destruct Hp as [<- | Hp];
    [ apply rmatch_Seq in H as [g1 [m1 [r1 [t1 [H1 [H ->]]]]]];
      apply rmatch_Lit in H1 as [-> [-> _]];
      apply rmatch_Seq in H as [g2 [m2 [r2 [t2 [H2 [H ->]]]]]];
      apply rmatch_Group in H2 as [g2' [H2 ->]];
      apply rmatch_Plus in H2 as [-> [_ [Hword Hne]]];
      apply rmatch_Seq in H as [g3 [m3 [r3 [t3 [H3 [H ->]]]]]];
      pose proof (rmatch_other_group 1 _ _ _ _ _ _ H eq_refl) as Hkeep;
      apply Hlit in H3 as [-> ->];
      exists m2; eexists; rewrite append_assoc;
      (split; [reflexivity|]); (split; [exact Hword|]); (split; [exact Hne|]);
      unfold group_text, group; rewrite Hkeep; simpl; reflexivity |]).
  destruct Hp.
Qed.

Lemma where_pattern_substring (pattern : regex) (s : string) (m : Match) :
  In pattern where_patterns -> match_of pattern s m -> Substring "where " s.
Proof.
  intros Hp Hm.
  destruct (where_pattern_parts pattern s m Hp Hm) as [column [tail [E _]]].
  destruct Hm as [pre [rest [-> _]]]. rewrite E.
  exists pre, (column ++ " " ++ tail ++ rest).
  now rewrite !append_assoc.
Qed.

Lemma mapM_constant {A B : Type} (f : A -> result B) (b : B) (l : list A) :
  (forall a, In a l -> f a = Ok b) -> mapM f l = Ok (map (fun _ => b) l).
Proof.
  induction l as [|a l IH]; intros H; simpl; [reflexivity|].
  rewrite (H a (or_introl eq_refl)), IH; [reflexivity|].
  intros x Hx. apply H. now right.
Qed.

Lemma extract_conditions_no_where (query : string) :
  ~ Substring "where " (lower query) -> extract_conditions query = Ok [].
Proof.
  intros Hno. unfold extract_conditions.
  rewrite (mapM_constant _ [] where_patterns); [reflexivity|].
  intros pattern Hp. unfold conditions_of_pattern.
  destruct (finditer pattern (lower query)) as [|m ms] eqn:E; [reflexivity|].
  exfalso. apply Hno. apply (where_pattern_substring pattern _ m Hp).
  apply finditer_match_of. rewrite E. now left.
Qed.

(** Without the word [where] followed by a space in the lower-cased sentence
    no condition is extracted; so a DELETE for such a sentence is never
    emitted (the answer is the warning when the table is resolved), and a
    SELECT has no WHERE clause. *)
Theorem no_where_no_condition (tables : schema) (query : string)
  (Hno : ~ Substring "where " (lower query)) :
  extract_conditions query = Ok []
  /\ (generate_delete_query tables query = Ok ERROR_TABLE
      \/ generate_delete_query tables query = Ok WARNING_DELETE)
  /\ (forall table, resolved_table tables query table ->
        generate_delete_query tables query = Ok WARNING_DELETE
        /\ exists columns,
             generate_select_query tables query
             = Ok ("SELECT " ++ columns ++ " FROM " ++ table ++ ";")).
Proof.
  pose proof (extract_conditions_no_where query Hno) as Hc.
  assert (Hd : forall table, resolved_table tables query table ->
                 generate_delete_query tables query = Ok WARNING_DELETE).
  { intros table Hr.
    destruct (generate_delete_query_resolved tables query table Hr) as [cs [Hcs ->]].
    rewrite Hc in Hcs. now injection Hcs as <-. }
  split; [exact Hc|]. split.
  - destruct (truthy_cases tables query) as [Hn | [table Hr]].
    + left. exact (proj2 (proj2 (proj2 (generate_unresolved tables query Hn)))).
    + right. exact (Hd table Hr).
  - intros table Hr. split; [exact (Hd table Hr)|].
    destruct (generate_select_query_resolved tables query table Hr)
      as [columns [cs [_ [Hcs ->]]]].
    rewrite Hc in Hcs. injection Hcs as <-.
    unfold where_part. rewrite append_nil_r, !append_assoc.
    eexists. reflexivity.
Qed.

(** [remove all users] has no [where]. *)
Lemma no_where_no_condition_witness :
  extract_conditions "remove all users" = Ok [].
Proof.
  refine (proj1 (no_where_no_condition default_schema "remove all users" _)).
  apply str_in_false. vm_compute. reflexivity.
Defined.

(** The five operators. *)
Definition operators : list string := ["="; ">"; "<"; "LIKE"; "IN"].

(** Every condition that is extracted has a column that is a non-empty run
    of word characters, found after [where] and a space in the lower-cased
    sentence; its operator is one of the five; its value is the quoted form of
    a captured text, so it is a number or begins and ends with a quote. *)
Theorem extract_conditions_shape (query : string) (conditions : list condition)
  (Hconds : extract_conditions query = Ok conditions) :
  forall column operator value,
    In (column, operator, value) conditions ->
    column <> "" /\ all_in re_word column = true
    /\ Substring ("where " ++ column ++ " ") (lower query)
    /\ In operator operators
    /\ (exists captured, value = quote_value captured)
    /\ (isdigit value = true \/ quoted_with "'" value \/ quoted_with dquote value).
Proof.
  intros column operator value Hin.
  destruct (extract_conditions_total query) as [cs [Hcs Hall]].
  assert (cs = conditions) by congruence. subst cs.
  rewrite Forall_forall in Hall. destruct (Hall _ Hin) as [p [m [Hp [_ [Hm Hc]]]]].
  destruct (where_pattern_parts p _ m Hp Hm) as [col [tail [E [Hword [Hne H1]]]]].
  destruct (where_patterns_bind p Hp) as [_ B2].
  destruct (match_of_group _ _ _ 2 Hm B2) as [captured H2].
  destruct (condition_of_match_operator m col captured H1 H2) as [op [Hc' Hop]].
  rewrite Hc' in Hc. injection Hc as <- <- <-.
  split; [exact Hne|]. split; [exact Hword|]. split.
  { destruct Hm as [pre [rest [-> _]]]. rewrite E.
    exists pre, (tail ++ rest). now rewrite !append_assoc. }
  split.
  { unfold operators.
    destruct Hop as [[_ ->] | [[_ [_ ->]] | [[_ [_ [_ ->]]] | [[_ [_ [_ [_ ->]]]]
                     | [_ [_ [_ [_ ->]]]]]]]]; simpl; auto 6. }
  split; [now exists captured|].
  destruct (quote_value_cases captured) as [[Hd E'] | [[_ [Hq E']] | [_ [_ [_ E']]]]];
    rewrite E'.
  - now left.
  - right. exact Hq.
  - right. left. apply quoted_with_wrap.
Qed.

(** The condition of [where login is bob]. *)
Lemma extract_conditions_shape_witness :
  "login" <> "" /\ all_in re_word "login" = true
  /\ Substring ("where " ++ "login" ++ " ") (lower "show users where login is bob")
  /\ In "IN" operators
  /\ (exists captured, "'bob'" = quote_value captured)
  /\ (isdigit "'bob'" = true \/ quoted_with "'" "'bob'" \/ quoted_with dquote "'bob'").
Proof.
  apply (extract_conditions_shape "show users where login is bob"
           [("login", "IN", "'bob'")]).
  - vm_compute. reflexivity.
  - left. reflexivity.
Defined.

End ConditionShape.

(** ** The comparison patterns *)

Section Comparison.

(** The second and third patterns: [where <col> >|greater than <number>] and
    [where <col> <|less than <number>]. *)
Definition pattern2 : regex := nth 1 where_patterns (Lit "").
Definition pattern3 : regex := nth 2 where_patterns (Lit "").

Lemma re_digit_isdigit (c : ascii) : re_digit c = true -> isdigit_char c = true.
Proof. unfold re_digit, isdigit_char. intros ->. reflexivity. Qed.

Lemma all_re_digit_isdigit (number : string) :
  all_in re_digit number = true -> number <> "" -> isdigit number = true.
Proof.
  intros Hall Hne. apply isdigit_spec. split; [exact Hne|].
  induction number as [|c n IH]; [reflexivity|].
  simpl in *. apply andb_true_iff in Hall as [Hc Hn].
  rewrite (re_digit_isdigit c Hc). simpl.
  destruct n; [reflexivity | apply IH; [exact Hn | discriminate]].
Qed.

Lemma quote_value_number (number : string) :
  all_in re_digit number = true -> number <> "" -> quote_value number = number.
Proof.
  intros Hall Hne. unfold quote_value.
  now rewrite (all_re_digit_isdigit number Hall Hne).
Qed.

(** The parts of a match of a comparison pattern whose keywords are [k1] and
    [k2]. *)
Lemma comparison_parts (k1 k2 : string) (s : string) (m : Match) :
  match_of (Seq (Lit "where ") (Seq (Group 1 (Plus re_word)) (Seq (Lit " ")
              (Seq (Alt (Lit k1) (Lit k2)) (Seq (Lit " ") (Group 2 (Plus re_digit)))))))
           s m ->
  exists column keyword number,
    group0 m = "where " ++ column ++ " " ++ keyword ++ " " ++ number
    /\ (keyword = k1 \/ keyword = k2)
    /\ all_in re_word column = true /\ column <> ""
    /\ all_in re_digit number = true /\ number <> ""
    /\ group_text m 1 = Ok column
    /\ group_text m 2 = Ok number.
Proof.
  intros [pre [rest [_ H]]].
  apply rmatch_Seq in H as [g1 [m1 [r1 [t1 [H1 [H ->]]]]]].
  apply rmatch_Lit in H1 as [-> [-> _]].
  apply rmatch_Seq in H as [g2 [m2 [r2 [t2 [H2 [H ->]]]]]].
  apply rmatch_Group in H2 as [g2' [H2 ->]].
  apply rmatch_Plus in H2 as [-> [_ [Hword Hne]]].
  apply rmatch_Seq in H as [g3 [m3 [r3 [t3 [H3 [H ->]]]]]].
  apply rmatch_Lit in H3 as [-> [-> _]].
  apply rmatch_Seq in H as [g4 [m4 [r4 [t4 [H4 [H ->]]]]]].
  apply rmatch_Seq in H as [g5 [m5 [r5 [t5 [H5 [H ->]]]]]].
  apply rmatch_Lit in H5 as [-> [-> _]].
  apply rmatch_Group in H as [g6 [H Hcap]].
  apply rmatch_Plus in H as [-> [_ [Hdig Hne2]]].
  assert (Hk : g4 = [(1, m2)] /\ (m4 = k1 \/ m4 = k2)).
  { apply rmatch_Alt in H4 as [H4 | H4]; apply rmatch_Lit in H4 as [-> [-> _]]; auto. }
  destruct Hk as [-> Hk].
  exists m2, m4, t5. repeat split; try assumption.
  - unfold group_text, group. rewrite Hcap. reflexivity.
  - unfold group_text, group. rewrite Hcap. reflexivity.
Qed.

(** No character of the text is [x]. *)
Definition without (x : ascii) (s : string) : bool :=
  all_in (fun c => negb (Ascii.eqb c x)) s.

Lemma without_substring (x : ascii) (s : string) :
  without x s = true -> ~ Substring (String x "") s.
Proof.
  intros H [pre [suf E]]. unfold without in H.
  rewrite E, !all_in_append in H. simpl in H.
  rewrite Ascii.eqb_refl in H. simpl in H. now rewrite andb_false_r in H.
Qed.

Lemma all_in_implies (p q : ascii -> bool) (s : string) :
  (forall c, p c = true -> q c = true) -> all_in p s = true -> all_in q s = true.
Proof.
  intros Hpq. induction s as [|c s IH]; simpl; [reflexivity|].
  intros H. apply andb_true_iff in H as [Hc Hs]. now rewrite (Hpq c Hc), IH.
Qed.

Lemma re_word_not (x : ascii) :
  re_word x = false -> forall c, re_word c = true -> negb (Ascii.eqb c x) = true.
Proof.
  intros Hx c Hc. destruct (Ascii.eqb c x) eqn:E; [|reflexivity].
  apply Ascii.eqb_eq in E. congruence.
Qed.

Lemma re_digit_word (c : ascii) : re_digit c = true -> re_word c = true.
Proof. unfold re_digit, re_word. intros ->. reflexivity. Qed.

(** A word character is not the space, so a run of word characters followed
    by a space and something other than [t] does not start with
    [greater than]. *)
Lemma startswith_greater_word (w after : string) (x : ascii) :
  all_in re_word w = true -> Ascii.eqb "t" x = false ->
  startswith "greater than" (w ++ String " " (String x after)) = false.
Proof.
  intros Hw Hx.
  assert (Hsp : forall c, re_word c = true -> Ascii.eqb " " c = false).
  { intros c Hc. destruct (Ascii.eqb " " c) eqn:E; [|reflexivity].
    apply Ascii.eqb_eq in E. subst c. discriminate Hc. }
  destruct w as [|c1 [|c2 [|c3 [|c4 [|c5 [|c6 [|c7 [|c8 w]]]]]]]]; simpl in *;
    rewrite ?Hx, ?andb_false_r; try reflexivity.
  do 7 (apply andb_true_iff in Hw as [_ Hw]).
  apply andb_true_iff in Hw as [Hw _].
  rewrite (Hsp c8 Hw), ?andb_false_r. reflexivity.
Qed.

Lemma str_in_greater_digits (number : string) :
  all_in re_digit number = true -> str_in "greater than" number = false.
Proof.
  induction number as [|c n IH]; intros H; [reflexivity|].
  simpl in H. apply andb_true_iff in H as [Hc Hn].
  change (str_in "greater than" (String c n))
    with (startswith "greater than" (String c n) || str_in "greater than" n).
  rewrite (IH Hn), orb_false_r.
  change (startswith "greater than" (String c n))
    with (Ascii.eqb "g" c && startswith "reater than" n).
  destruct (Ascii.eqb "g" c) eqn:E; [|reflexivity].
  apply Ascii.eqb_eq in E. subst c. discriminate Hc.
Qed.

Lemma str_in_greater_word (w after : string) (x : ascii) :
  all_in re_word w = true -> Ascii.eqb "t" x = false ->
  str_in "greater than" (String " " (String x after)) = false ->
  str_in "greater than" (w ++ String " " (String x after)) = false.
Proof.
  intros Hw Hx Hafter. induction w as [|c w IH]; [exact Hafter|].
  change (str_in "greater than" (String c w ++ String " " (String x after)))
    with (startswith "greater than" (String c w ++ String " " (String x after))
          || str_in "greater than" (w ++ String " " (String x after))).
  rewrite (startswith_greater_word (String c w) after x Hw Hx).
  simpl in Hw. apply andb_true_iff in Hw as [_ Hw]. now rewrite (IH Hw).
Qed.

(** The text of a match of the third pattern has no [>] and no
    [greater than]. *)
Lemma less_text_not_greater (column keyword number : string) :
  all_in re_word column = true -> all_in re_digit number = true ->
  keyword = "<" \/ keyword = "less than" ->
  let text := "where " ++ column ++ " " ++ keyword ++ " " ++ number in
  ~ (Substring "greater than" text \/ Substring ">" text).
Proof.
  intros Hw Hd Hk text [H | H].
  - apply str_in_spec in H. revert H.
    assert (E : str_in "greater than" text = false); [|rewrite E; discriminate].
    unfold text.
    change (str_in "greater than" ("where " ++ column ++ " " ++ keyword ++ " " ++ number))
      with (str_in "greater than" (column ++ " " ++ keyword ++ " " ++ number)).
    pose proof (str_in_greater_digits number Hd) as Hn.
    destruct Hk as [-> | ->].
    + apply (str_in_greater_word column (" " ++ number) "<" Hw eq_refl).
      simpl. simpl in Hn. exact Hn.
    + apply (str_in_greater_word column ("ess than " ++ number) "l" Hw eq_refl).
      simpl. simpl in Hn. exact Hn.
  - revert H. apply without_substring. unfold text, without.
    rewrite !all_in_append.
    rewrite (all_in_implies re_word _ column (re_word_not ">" eq_refl) Hw).
    rewrite (all_in_implies re_digit _ number
               (fun c Hc => re_word_not ">" eq_refl c (re_digit_word c Hc)) Hd).
    destruct Hk as [-> | ->]; reflexivity.
Qed.

(** A match of the second pattern always gives the operator [>], and a match
    of the third pattern always gives [<]; in both the value is the number
    that was matched, without quotes. *)
Theorem comparison_operator (query : string) (m : Match) :
  (In m (finditer pattern2 (lower query)) ->
   exists column number,
     condition_of_match m = Ok (column, ">", number)
     /\ isdigit number = true
     /\ (Substring ("where " ++ column ++ " > " ++ number) (lower query)
         \/ Substring ("where " ++ column ++ " greater than " ++ number) (lower query)))
  /\ (In m (finditer pattern3 (lower query)) ->
      exists column number,
        condition_of_match m = Ok (column, "<", number)
        /\ isdigit number = true
        /\ (Substring ("where " ++ column ++ " < " ++ number) (lower query)
            \/ Substring ("where " ++ column ++ " less than " ++ number) (lower query))).
Proof.
  split; intros Hm; apply finditer_match_of in Hm;
    pose proof Hm as [pre [rest [Es _]]];
    apply comparison_parts in Hm
      as [column [keyword [number [E [Hk [Hw [Hne [Hd [Hne2 [H1 H2]]]]]]]]]];
    destruct (condition_of_match_operator m column number H1 H2) as [op [Hc Hop]];
    rewrite (quote_value_number number Hd Hne2) in Hc;
    exists column, number.
  - assert (Hgt : Substring "greater than" (group0 m) \/ Substring ">" (group0 m)).
    { rewrite E. destruct Hk as [-> | ->]; [right | left];
        eexists ("where " ++ column ++ " "), (" " ++ number);
        now rewrite !append_assoc. }
    assert (op = ">").
    { destruct Hop as [[_ ->] | [[Hn _] | [[Hn _] | [[Hn _] | [Hn _]]]]];
        [reflexivity | now elim Hn ..]. }
    subst op. split; [exact Hc|]. split; [now apply all_re_digit_isdigit|].
    rewrite E in Es.
    destruct Hk as [-> | ->]; [left | right]; exists pre, rest; rewrite Es;
      now rewrite !append_assoc.
  - pose proof (less_text_not_greater column keyword number Hw Hd Hk) as Hngt.
    cbv zeta in Hngt. rewrite <- E in Hngt.
    assert (Hlt : Substring "less than" (group0 m) \/ Substring "<" (group0 m)).
    { rewrite E. destruct Hk as [-> | ->]; [right | left];
        eexists ("where " ++ column ++ " "), (" " ++ number);
        now rewrite !append_assoc. }
    assert (op = "<").
    { destruct Hop as [[Hg _] | [[_ [_ ->]] | [[_ [Hn _]] | [[_ [Hn _]] | [_ [Hn _]]]]]];
        [now elim Hngt | reflexivity | now elim Hn ..]. }
    subst op. split; [exact Hc|]. split; [now apply all_re_digit_isdigit|].
    rewrite E in Es.
    destruct Hk as [-> | ->]; [left | right]; exists pre, rest; rewrite Es;
      now rewrite !append_assoc.
Qed.

(** [where age > 18] and [where total less than 5]. *)
Lemma comparison_operator_witness :
  exists column number,
    condition_of_match (mkMatch "where age > 18" [(2, "18"); (1, "age")])
    = Ok (column, ">", number)
    /\ isdigit number = true
    /\ (Substring ("where " ++ column ++ " > " ++ number)
                  (lower "show users where age > 18")
        \/ Substring ("where " ++ column ++ " greater than " ++ number)
                     (lower "show users where age > 18")).
Proof.
  apply (proj1 (comparison_operator "show users where age > 18"
                  (mkMatch "where age > 18" [(2, "18"); (1, "age")]))).
  vm_compute. left. reflexivity.
Defined.

End Comparison.

(** ** The values of an INSERT *)

Section InsertValues.

Lemma rmatch_Seq_in (r1 r2 : regex) (g g1 g2 : groups) (s m1 rest1 m2 rest2 : string) :
  In (g1, m1, rest1) (rmatch r1 g s) ->
  In (g2, m2, rest2) (rmatch r2 g1 rest1) ->
  In (g2, m1 ++ m2, rest2) (rmatch (Seq r1 r2) g s).
Proof.
  intros H1 H2. simpl. apply in_flat_map. exists (g1, m1, rest1).
  split; [exact H1|]. apply in_map_iff. now exists (g2, m2, rest2).
Qed.

Lemma rmatch_Lit_in (l rest : string) (g : groups) :
  In (g, l, rest) (rmatch (Lit l) g (l ++ rest)).
Proof.
  simpl. rewrite (proj2 (strip_prefix_spec l (l ++ rest) rest) eq_refl). now left.
Qed.

Lemma rmatch_Opt_skip (r : regex) (g : groups) (s : string) :
  In (g, "", s) (rmatch (Opt r) g s).
Proof. simpl. apply in_or_app. right. now left. Qed.

Lemma star_splits_empty (cls : ascii -> bool) (s : string) :
  In ("", s) (star_splits cls s).
Proof.
  destruct s as [|c s]; simpl; [now left|].
  destruct (cls c); [apply in_or_app; right|]; now left.
Qed.

Lemma rmatch_Star_skip (cls : ascii -> bool) (g : groups) (s : string) :
  In (g, "", s) (rmatch (Star cls) g s).
Proof.
  simpl. apply in_map_iff. exists ("", s). split; [reflexivity | apply star_splits_empty].
Qed.

Lemma rmatch_Plus_one (cls : ascii -> bool) (g : groups) (c : ascii) (rest : string) :
  cls c = true -> In (g, String c "", rest) (rmatch (Plus cls) g (String c rest)).
Proof.
  intros Hc. simpl. rewrite Hc. apply in_map_iff. exists (String c "", rest).
  split; [reflexivity|]. apply in_map_iff. exists ("", rest).
  split; [reflexivity | apply star_splits_empty].
Qed.

Lemma rmatch_Group_in (n : nat) (r : regex) (g g1 : groups) (s m rest : string) :
  In (g1, m, rest) (rmatch r g s) ->
  In ((n, m) :: g1, m, rest) (rmatch (Group n r) g s).
Proof. intros H. simpl. apply in_map_iff. now exists (g1, m, rest). Qed.

Lemma match_here_some (r : regex) (s : string) (o : outcome) :
  In o (rmatch r [] s) -> exists m, match_here r s = Some m.
Proof.
  unfold match_here. destruct (rmatch r [] s) as [|[[g t] rest] l]; [intros []|].
  intros _. eexists. reflexivity.
Qed.

Lemma search_some (r : regex) (pre s' : string) (m : Match) :
  match_here r s' = Some m -> exists m', search r (pre ++ s') = Some m'.
Proof.
  intros H. induction pre as [|c pre IH].
  - simpl. destruct s'; simpl; rewrite H; eexists; reflexivity.
  - simpl. destruct (match_here r (String c (pre ++ s'))); [eexists; reflexivity|].
    exact IH.
Qed.

(** The word [value] followed by a character that is not a closing
    parenthesis. *)
Definition has_value_text (s : string) : Prop :=
  exists pre c rest, s = pre ++ "value" ++ String c rest /\ c <> ")"%char.

Lemma first_char_append (a b : string) (x : ascii) (P : ascii -> Prop) :
  (forall c t, a = String c t -> P c) ->
  (a = "" -> exists c t, b = String c t /\ P c) ->
  exists c t, a ++ b = String c t /\ P c.
Proof.
  intros Ha Hb. destruct a as [|c t].
  - destruct (Hb eq_refl) as [c' [t' [-> Hc]]]. now exists c', t'.
  - exists c, (t ++ b). split; [reflexivity | now apply (Ha c t)].
Qed.

Lemma all_in_head (cls : ascii -> bool) (c : ascii) (t : string) :
  all_in cls (String c t) = true -> cls c = true.
Proof. simpl. intros H. now apply andb_true_iff in H as [H _]. Qed.

(** What follows [value] in a match of [values_pattern] starts with a
    character that is not a closing parenthesis. *)
Lemma values_pattern_parts (s : string) (m : Match) :
  match_of values_pattern s m ->
  exists c t, group0 m = "value" ++ String c t /\ c <> ")"%char.
Proof.
  intros [pre [rest [_ H]]]. unfold values_pattern in H.
  apply rmatch_Seq in H as [g1 [m1 [r1 [t1 [H1 [H ->]]]]]].
  apply rmatch_Lit in H1 as [_ [-> _]].
  apply rmatch_Seq in H as [g2 [m2 [r2 [t2 [H2 [H ->]]]]]].
  apply rmatch_Seq in H as [g3 [m3 [r3 [t3 [H3 [H ->]]]]]].
  apply rmatch_Seq in H as [g4 [m4 [r4 [t4 [H4 [H ->]]]]]].
  apply rmatch_Seq in H as [g5 [m5 [r5 [t5 [H5 [H ->]]]]]].
  apply rmatch_Seq in H as [g6 [m6 [r6 [t6 [H6 [_ ->]]]]]].
  apply rmatch_Group in H6 as [g6' [H6 _]].
  apply rmatch_Plus in H6 as [_ [_ [Hv Hne]]].
  apply rmatch_Star in H3 as [_ [_ Hs1]].
  apply rmatch_Star in H5 as [_ [_ Hs2]].
  assert (Hopen : m4 = "" \/ m4 = "(" \/ m4 = ":").
  { apply rmatch_Opt in H4 as [H4 | [_ [-> _]]]; [|now left].
    apply rmatch_Alt in H4 as [H4 | H4]; apply rmatch_Lit in H4 as [_ [-> _]]; auto. }
  assert (Hs : m2 = "" \/ m2 = "s").
  { apply rmatch_Opt in H2 as [H2 | [_ [-> _]]]; [|now left].
    apply rmatch_Lit in H2 as [_ [-> _]]. now right. }
  assert (Hsp : forall c, isspace_char c = true -> c <> ")"%char).
  { intros c Hc ->. discriminate Hc. }
  assert (Hnp : forall c, re_not ")" c = true -> c <> ")"%char).
  { intros c Hc ->. discriminate Hc. }
  assert (Hfirst : exists c t, m2 ++ m3 ++ m4 ++ m5 ++ m6 ++ t6 = String c t
                               /\ c <> ")"%char).
  { apply (first_char_append _ _ "x"%char (fun c => c <> ")"%char)).
    { intros c t E. destruct Hs as [-> | ->]; [discriminate|].
      injection E as <- _. discriminate. }
    intros _. apply (first_char_append _ _ "x"%char (fun c => c <> ")"%char)).
    { intros c t E. subst m3. apply Hsp. now apply all_in_head in Hs1. }
    intros _. apply (first_char_append _ _ "x"%char (fun c => c <> ")"%char)).
    { intros c t E. destruct Hopen as [-> | [-> | ->]]; [discriminate | |];
        injection E as <- _; discriminate. }
    intros _. apply (first_char_append _ _ "x"%char (fun c => c <> ")"%char)).
    { intros c t E. subst m5. apply Hsp. now apply all_in_head in Hs2. }
    intros _. apply (first_char_append _ _ "x"%char (fun c => c <> ")"%char)).
    { intros c t E. subst m6. apply Hnp. now apply all_in_head in Hv. }
    intros E. now elim Hne. }
  destruct Hfirst as [c [t [E Hc]]]. exists c, t. now rewrite E.
Qed.

Lemma search_values_pattern (s : string) :
  (exists m, search values_pattern s = Some m) <-> has_value_text s.
Proof.
  split.
  - intros [m H]. apply search_match_of in H.
    destruct (values_pattern_parts s m H) as [c [t [E Hc]]].
    destruct H as [pre [rest [-> _]]]. rewrite E.
    exists pre, c, (t ++ rest). split; [|exact Hc].
    now rewrite !append_assoc.
  - intros [pre [c [rest [-> Hc]]]].
    assert (Hin : In ([(1, String c "")], "value" ++ "" ++ "" ++ "" ++ "" ++ String c "" ++ "",
                      rest)
                     (rmatch values_pattern [] ("value" ++ String c rest))).
    { unfold values_pattern.
      eapply rmatch_Seq_in; [apply rmatch_Lit_in|].
      eapply rmatch_Seq_in; [apply rmatch_Opt_skip|].
      eapply rmatch_Seq_in; [apply rmatch_Star_skip|].
      eapply rmatch_Seq_in; [apply rmatch_Opt_skip|].
      eapply rmatch_Seq_in; [apply rmatch_Star_skip|].
      eapply rmatch_Seq_in; [|apply rmatch_Opt_skip].
      apply rmatch_Group_in, rmatch_Plus_one.
      unfold re_not. destruct (Ascii.eqb c ")") eqn:E; [|reflexivity].
      apply Ascii.eqb_eq in E. now elim Hc. }
    destruct (match_here_some _ _ _ Hin) as [m Hm].
    apply (search_some _ pre _ m Hm).
Qed.

(** With a table resolved, the INSERT builder answers that it found no
    values exactly when the word [value] is nowhere in the lower-cased
    sentence followed by a character other than a closing parenthesis;
    otherwise it returns an INSERT statement for the table. *)
Theorem insert_values_found (tables : schema) (query table : string)
  (Htable : resolved_table tables query table) :
  (generate_insert_query tables query = Ok ERROR_INSERT
   <-> ~ has_value_text (lower query))
  /\ (has_value_text (lower query) ->
      exists columns values,
        generate_insert_query tables query
        = Ok ("INSERT INTO " ++ table ++ " (" ++ columns ++ ") VALUES (" ++ values ++ ");")).
Proof.
  destruct (generate_insert_query_resolved tables query table Htable)
    as [columns [_ [[Hs E] | [m [text [Hs [_ E]]]]]]].
  - assert (Hno : ~ has_value_text (lower query)).
    { intros H. apply search_values_pattern in H as [m Hm]. congruence. }
    split; [split; [intros _; exact Hno | intros _; exact E]|].
    intros H. now elim Hno.
  - assert (Hyes : has_value_text (lower query)).
    { apply search_values_pattern. now exists m. }
    split; [split|].
    + intros E'. rewrite E in E'. cbn in E'. discriminate E'.
    + intros Hno. now elim Hno.
    + intros _. eexists. eexists. exact E.
Qed.

(** [add a user] has no values; [add user values 5] has. *)
Lemma insert_values_found_witness :
  generate_insert_query default_schema "add a user" = Ok ERROR_INSERT.
Proof.
  refine (proj2 (proj1 (insert_values_found default_schema "add a user" "users" _)) _).
  - split; [vm_compute; reflexivity | discriminate].
  - intros H. apply search_values_pattern in H as [m Hm]. vm_compute in Hm. discriminate Hm.
Defined.

End InsertValues.

(** ** What the builders put in a statement *)

Section Statements.

Lemma all_in_split (cls : ascii -> bool) (sep : ascii) (s : string) :
  all_in cls s = true -> forall part, In part (split sep s) -> all_in cls part = true.
Proof.
  induction s as [|c s IH]; simpl; intros H part Hin.
  - destruct Hin as [<- | []]. reflexivity.
  - apply andb_true_iff in H as [Hc Hs]. destruct (Ascii.eqb c sep).
    + destruct Hin as [<- | Hin]; [reflexivity | now apply IH].
    + destruct (split sep s) as [|x xs] eqn:E.
      * destruct Hin as [<- | []]. simpl. now rewrite Hc.
      * destruct Hin as [<- | Hin].
        -- simpl. rewrite Hc. apply (IH Hs). now left.
        -- apply (IH Hs). now right.
Qed.

Lemma without_split (sep : ascii) (s : string) :
  forall part, In part (split sep s) -> without sep part = true.
Proof.
  induction s as [|c s IH]; simpl; intros part Hin.
  - destruct Hin as [<- | []]. reflexivity.
  - destruct (Ascii.eqb c sep) eqn:Ec.
    + destruct Hin as [<- | Hin]; [reflexivity | now apply IH].
    + destruct (split sep s) as [|x xs] eqn:E.
      * destruct Hin as [<- | []]. unfold without. simpl. now rewrite Ec.
      * destruct Hin as [<- | Hin].
        -- unfold without. simpl. rewrite Ec. simpl. apply IH. now left.
        -- apply IH. now right.
Qed.

Lemma split_nonempty (sep : ascii) (s : string) : split sep s <> [].
Proof.
  destruct s as [|c s]; simpl; [discriminate|].
  destruct (Ascii.eqb c sep); [discriminate|].
  destruct (split sep s); discriminate.
Qed.

Lemma all_in_lstrip (cls : ascii -> bool) (s : string) :
  all_in cls s = true -> all_in cls (lstrip s) = true.
Proof.
  induction s as [|c s IH]; simpl; [reflexivity|].
  intros H. destruct (isspace_char c); [|exact H].
  apply andb_true_iff in H as [_ H]. now apply IH.
Qed.

Lemma all_in_rstrip (cls : ascii -> bool) (s : string) :
  all_in cls s = true -> all_in cls (rstrip s) = true.
Proof.
  induction s as [|c s IH]; simpl; [reflexivity|].
  intros H. apply andb_true_iff in H as [Hc Hs]. specialize (IH Hs).
  destruct (rstrip s) as [|d r].
  - destruct (isspace_char c); [reflexivity|]. simpl. now rewrite Hc.
  - change (all_in cls (String c (String d r)))
      with (cls c && all_in cls (String d r)). now rewrite Hc, IH.
Qed.

Lemma all_in_strip (cls : ascii -> bool) (s : string) :
  all_in cls s = true -> all_in cls (strip s) = true.
Proof. intros H. unfold strip. now apply all_in_rstrip, all_in_lstrip. Qed.

Lemma all_in_format_value (cls : ascii -> bool) (value : string) :
  cls "'"%char = true -> all_in cls value = true ->
  all_in cls (format_value value) = true.
Proof.
  intros Hq Hv. rewrite format_value_quote_value.
  destruct (quote_value_cases value) as [[_ E] | [[_ [_ E]] | [_ [_ [_ E]]]]];
    rewrite E; try exact Hv.
  rewrite !all_in_append, Hv. simpl. now rewrite Hq.
Qed.

(** The text of group 1 of [values_pattern] has no closing parenthesis. *)
Lemma values_pattern_group (s : string) (m : Match) :
  match_of values_pattern s m ->
  exists text, group_text m 1 = Ok text /\ without ")" text = true.
Proof.
  intros [pre [rest [_ H]]]. unfold values_pattern in H.
  apply rmatch_Seq in H as [g1 [m1 [r1 [t1 [_ [H _]]]]]].
  apply rmatch_Seq in H as [g2 [m2 [r2 [t2 [_ [H _]]]]]].
  apply rmatch_Seq in H as [g3 [m3 [r3 [t3 [_ [H _]]]]]].
  apply rmatch_Seq in H as [g4 [m4 [r4 [t4 [_ [H _]]]]]].
  apply rmatch_Seq in H as [g5 [m5 [r5 [t5 [_ [H _]]]]]].
  apply rmatch_Seq in H as [g6 [m6 [r6 [t6 [H6 [H _]]]]]].
  pose proof (rmatch_other_group 1 _ _ _ _ _ _ H eq_refl) as Hkeep.
  apply rmatch_Group in H6 as [g6' [H6 ->]].
  apply rmatch_Plus in H6 as [_ [_ [Hv _]]].
  exists m6. split; [|exact Hv].
  unfold group_text, group. rewrite Hkeep. reflexivity.
Qed.

(** An INSERT statement has at least one value, and every value is a number
    or begins and ends with a quote, and has neither a comma nor a closing
    parenthesis in it: the text of the values stops at the first closing
    parenthesis and is cut at every comma, inside quotes as well. *)
Theorem insert_values_plain (tables : schema) (query table : string)
  (Htable : resolved_table tables query table)
  (Hvalues : has_value_text (lower query)) :
  exists columns values,
    generate_insert_query tables query
    = Ok ("INSERT INTO " ++ table ++ " (" ++ columns ++ ") VALUES ("
            ++ join ", " values ++ ");")
    /\ values <> []
    /\ Forall (fun value =>
                 without "," value = true /\ without ")" value = true
                 /\ (isdigit value = true \/ quoted_with "'" value
                     \/ quoted_with dquote value))
              values.
Proof.
  destruct (generate_insert_query_resolved tables query table Htable)
    as [columns [_ [[Hs _] | [m [text [Hs [Ht E]]]]]]].
  { apply search_values_pattern in Hvalues as [m Hm]. congruence. }
  destruct (values_pattern_group _ _ (search_match_of _ _ _ Hs)) as [text' [Ht' Hp]].
  assert (text' = text) by congruence. subst text'.
  exists (join ", " (insert_columns query columns)),
         (map format_value (map strip (split "," text))).
  split; [exact E|]. split.
  { pose proof (split_nonempty "," text) as Hne.
    destruct (split "," text); [now elim Hne | discriminate]. }
  apply Forall_forall. intros value Hin.
  apply in_map_iff in Hin as [raw [<- Hin]].
  apply in_map_iff in Hin as [part [<- Hin]].
  split; [|split].
  - apply all_in_format_value; [reflexivity|].
    apply all_in_strip. now apply (without_split "," text).
  - apply all_in_format_value; [reflexivity|].
    apply all_in_strip. now apply (all_in_split _ "," text).
  - rewrite format_value_quote_value.
    destruct (quote_value_cases (strip part)) as [[Hd E'] | [[_ [Hq E']] | [_ [_ [_ E']]]]];
      rewrite E'.
    + now left.
    + right. exact Hq.
    + right. left. apply quoted_with_wrap.
Qed.

(** A quoted text with a comma becomes two values. *)
Lemma insert_values_plain_witness :
  exists columns values,
    generate_insert_query default_schema "add user values ('a, b')"
    = Ok ("INSERT INTO " ++ "users" ++ " (" ++ columns ++ ") VALUES ("
            ++ join ", " values ++ ");")
    /\ values <> []
    /\ Forall (fun value =>
                 without "," value = true /\ without ")" value = true
                 /\ (isdigit value = true \/ quoted_with "'" value
                     \/ quoted_with dquote value))
              values.
Proof.
  apply (insert_values_plain default_schema "add user values ('a, b')" "users").
  - split; [vm_compute; reflexivity | discriminate].
  - exists "add user ", "s"%char, " ('a, b')". split; [reflexivity | discriminate].
Defined.

Example insert_quoted_comma :
  generate_insert_query default_schema "add user values ('a, b')"
  = Ok "INSERT INTO users (name, email, age, created_at) VALUES (''a', 'b'');".
Proof. vm_compute. reflexivity. Qed.

Lemma set_pattern_substring (s : string) (m : Match) :
  match_of set_pattern s m -> Substring "set " s.
Proof.
  intros [pre [rest [-> H]]]. unfold set_pattern in H.
  apply rmatch_Seq in H as [g1 [m1 [r1 [t1 [H1 [_ E]]]]]].
  apply rmatch_Lit in H1 as [_ [-> _]]. rewrite E.
  exists pre, (t1 ++ rest). now rewrite !append_assoc.
Qed.

(** UPDATE has no guard like the one of DELETE.  With a table resolved: when
    the lower-cased sentence has no [set] followed by a space the answer is
    the error for missing values; when it has no [where] followed by a space
    the answer is that error or an UPDATE statement without WHERE clause, one
    that changes every row. *)
Theorem update_without_where (tables : schema) (query table : string)
  (Htable : resolved_table tables query table) :
  (~ Substring "set " (lower query) ->
   generate_update_query tables query = Ok ERROR_UPDATE)
  /\ (~ Substring "where " (lower query) ->
      generate_update_query tables query = Ok ERROR_UPDATE
      \/ exists clauses,
           clauses <> [] /\ Forall set_clause_shape clauses
           /\ generate_update_query tables query
              = Ok ("UPDATE " ++ table ++ " SET " ++ join ", " clauses ++ ";")).
Proof.
  destruct (generate_update_query_resolved tables query table Htable)
    as [clauses [conditions [Hm [Hshape [Hc E]]]]].
  split.
  - intros Hno. destruct (finditer set_pattern (lower query)) as [|m ms] eqn:Ef.
    + simpl in Hm. injection Hm as <-. exact E.
    + exfalso. apply Hno. apply (set_pattern_substring _ m).
      apply finditer_match_of. rewrite Ef. now left.
  - intros Hno. rewrite (extract_conditions_no_where query Hno) in Hc.
    injection Hc as <-. destruct clauses as [|clause rest]; [now left | right].
    exists (clause :: rest). split; [discriminate|]. split; [exact Hshape|].
    rewrite E. unfold where_part. now rewrite append_nil_r, !append_assoc.
Qed.

Lemma update_without_where_witness :
  generate_update_query default_schema "update users name bob" = Ok ERROR_UPDATE.
Proof.
  refine (proj1 (update_without_where default_schema "update users name bob" "users" _) _).
  - split; [vm_compute; reflexivity | discriminate].
  - apply str_in_false. vm_compute. reflexivity.
Defined.

Example update_every_row :
  generate_query default_schema "update users set name to bob"
  = Ok "UPDATE users SET name = 'bob';".
Proof. vm_compute. reflexivity. Qed.

(** A table with the empty name at the head of the schema is returned by
    [identify_table] for every sentence and then refused by the builders:
    every sentence gets the error for the table, or the answer for a sentence
    without keyword. *)
Theorem empty_table_name_first
  (tables rest : schema) (columns : list string) (query : string)
  (Hfirst : tables = ("", columns) :: rest) :
  identify_table tables query = Some ""
  /\ generate_select_query tables query = Ok ERROR_TABLE
  /\ generate_insert_query tables query = Ok ERROR_TABLE
  /\ generate_update_query tables query = Ok ERROR_TABLE
  /\ generate_delete_query tables query = Ok ERROR_TABLE
  /\ (generate_query tables query = Ok ERROR_TABLE
      \/ generate_query tables query = Ok SORRY).
Proof.
  subst tables.
  assert (Hid : identify_table (("", columns) :: rest) query = Some "").
  { unfold identify_table. simpl. now rewrite str_in_empty. }
  assert (Hno : truthy (identify_table (("", columns) :: rest) query) = None)
    by now rewrite Hid.
  destruct (generate_unresolved _ _ Hno) as [E1 [E2 [E3 E4]]].
  repeat (split; [assumption|]).
  destruct (generate_query_dispatch (("", columns) :: rest) query)
    as [[_ E] | [[_ E] | [[_ E] | [[_ E] | [_ E]]]]]; rewrite E; auto.
Qed.

Lemma empty_table_name_first_witness :
  generate_select_query (("", ["id"]) :: default_schema) "show all users"
  = Ok ERROR_TABLE.
Proof.
  refine (proj1 (proj2 (empty_table_name_first (("", ["id"]) :: default_schema)
                          default_schema ["id"] "show all users" eq_refl))).
Defined.

(** When the sentence names no table of the schema (the empty name apart,
    which the builders refuse), every builder answers with the error for the
    table, before it looks for values, assignments or conditions; and
    [generate_query] gives that error or the answer for a sentence without
    keyword. *)
Theorem unresolved_table_error (tables : schema) (query : string)
  (Hnone : forall table, In table (keys tables) -> table <> "" ->
                         ~ names_table query table) :
  generate_select_query tables query = Ok ERROR_TABLE
  /\ generate_insert_query tables query = Ok ERROR_TABLE
  /\ generate_update_query tables query = Ok ERROR_TABLE
  /\ generate_delete_query tables query = Ok ERROR_TABLE
  /\ (generate_query tables query = Ok ERROR_TABLE
      \/ generate_query tables query = Ok SORRY).
Proof.
  assert (Hno : truthy (identify_table tables query) = None).
  { destruct (truthy_cases tables query) as [H | [table Hr]]; [exact H|].
    exfalso. apply (Hnone table (resolved_table_key _ _ _ Hr)); [apply Hr|].
    destruct Hr as [Hid _]. unfold identify_table in Hid.
    apply find_some in Hid as [_ Hm]. now apply table_matches_names. }
  destruct (generate_unresolved _ _ Hno) as [E1 [E2 [E3 E4]]].
  repeat (split; [assumption|]).
  destruct (generate_query_dispatch tables query)
    as [[_ E] | [[_ E] | [[_ E] | [[_ E] | [_ E]]]]]; rewrite E; auto.
Qed.

(** [add a pet] names no table of the built-in schema. *)
Lemma unresolved_table_error_witness :
  generate_insert_query default_schema "add a pet" = Ok ERROR_TABLE.
Proof.
  refine (proj1 (proj2 (unresolved_table_error default_schema "add a pet" _))).
  intros table [<- | [<- | [<- | []]]] _ H; apply table_matches_names in H;
    vm_compute in H; discriminate H.
Defined.



End Statements.

(** * The command loop

    [main] reads lines and prints.  The standard input is the list of the
    lines still to be read ([input] raises [EOFError] when there is none), the
    standard output is the list of what was printed and prompted.  The file
    [schema.json] is modelled by the schema it holds, [None] when there is no
    file: what [json.dump] writes [json.load] reads back, and the text in
    between is not modelled. *)

Module Cli.

Inductive event : Type :=
| Printed (text : string)     (* [print(text)] *)
| Prompted (text : string).   (* the prompt of [input(text)] *)

(** How [main] ends: the [break] after [exit], the [EOFError] of [input], or
    an exception of the generator. *)
Inductive ending : Type :=
| Goodbye
| EndOfInput
| Crashed (e : exn).

Record run : Type := mkRun {
  output : list event;
  tables_end : schema;
  file_end : option schema;
  how : ending
}.

Definition prepend (events : list event) (r : run) : run :=
  mkRun (events ++ output r)%list (tables_end r) (file_end r) (how r).

Definition nl : string := String (ascii_of_nat 10) "".

(** [load_schema]: the schema of the file, or the built-in one. *)
Definition load_schema (file : option schema) : schema :=
  match file with
  | Some tables => tables
  | None => default_schema
  end.

(** [save_schema]: the file holds the current schema. *)
Definition save_schema (tables : schema) : option schema := Some tables.

(** [self.tables[table_name] = column_list]: the value of an existing key is
    replaced where the key stands, a new key goes to the end. *)
Fixpoint setitem (tables : schema) (table_name : string) (column_list : list string)
  : schema :=
  match tables with
  | [] => [(table_name, column_list)]
  | (k, v) :: rest =>
      if String.eqb k table_name then (k, column_list) :: rest
      else (k, v) :: setitem rest table_name column_list
  end.

(** The lines printed for [schema]. *)
Definition show_schema (tables : schema) : list event :=
  map (fun entry : string * list string =>
         Printed (fst entry ++ ": " ++ join ", " (snd entry)))
      tables.

Definition ask : list event :=
  [Printed (nl ++ "Enter your English query:"); Prompted "> "].

Definition ask_update (tables : schema) : list event :=
  (ask ++ [Printed (nl ++ "Current Schema:")] ++ show_schema tables
     ++ [Prompted (nl ++ "Would you like to update the schema? (yes/no): ")])%list.

(** The [while True] loop of [main]. *)
Fixpoint main_loop (tables : schema) (file : option schema) (stdin : list string) : run :=
  match stdin with
  | [] => mkRun ask tables file EndOfInput
  | user_input :: stdin1 =>
      if String.eqb (lower user_input) "exit" then
        mkRun (ask ++ [Printed "Goodbye!"])%list tables file Goodbye
      else if String.eqb (lower user_input) "schema" then
        match stdin1 with
        | [] => mkRun (ask_update tables) tables file EndOfInput
        | update :: stdin2 =>
            if String.eqb (lower update) "yes" then
              match stdin2 with
              | [] =>
                  mkRun (ask_update tables ++ [Prompted "Enter table name: "])%list
                        tables file EndOfInput
              | table_name :: stdin3 =>
                  match stdin3 with
                  | [] =>
                      mkRun (ask_update tables
                               ++ [Prompted "Enter table name: ";
                                   Prompted "Enter column names (comma separated): "])%list
                            tables file EndOfInput
                  | columns :: stdin4 =>
                      let column_list := map strip (split "," columns) in
                      let tables' := setitem tables table_name column_list in
                      prepend (ask_update tables
                                 ++ [Prompted "Enter table name: ";
                                     Prompted "Enter column names (comma separated): ";
                                     Printed "Schema updated successfully!"])%list
                              (main_loop tables' (save_schema tables') stdin4)
                  end
              end
            else prepend (ask_update tables) (main_loop tables file stdin2)
        end
      else
        match generate_query tables user_input with
        | Ok result =>
            prepend (ask ++ [Printed (nl ++ "Generated SQL Query:"); Printed result])%list
                    (main_loop tables file stdin1)
        | Raise e => mkRun ask tables file (Crashed e)
        end
  end.

Definition main (file : option schema) (stdin : list string) : run :=
  prepend [Printed "SQL Query Generator";
           Printed "Enter 'exit' to quit";
           Printed "Enter 'schema' to view or update database schema"]
          (main_loop (load_schema file) file stdin).

End Cli.
Import Cli.

(** ** Sessions *)

Section Sessions.

Lemma generate_query_ok (tables : schema) (query : string) :
  exists sql, generate_query tables query = Ok sql.
Proof.
  destruct (truthy_cases tables query) as [Hno | [table Hr]].
  - destruct (generate_unresolved tables query Hno) as [E1 [E2 [E3 E4]]].
    destruct (generate_query_dispatch tables query)
      as [[_ E] | [[_ E] | [[_ E] | [[_ E] | [_ E]]]]];
      rewrite E; rewrite ?E1, ?E2, ?E3, ?E4; eexists; reflexivity.
  - destruct (generate_query_dispatch tables query)
      as [[_ E] | [[_ E] | [[_ E] | [[_ E] | [_ E]]]]]; rewrite E.
    + destruct (generate_select_query_resolved tables query table Hr)
        as [columns [conditions [_ [_ ->]]]]. eexists. reflexivity.
    + destruct (generate_insert_query_resolved tables query table Hr)
        as [columns [_ [[_ ->] | [m [text [_ [_ ->]]]]]]]; eexists; reflexivity.
    + destruct (generate_update_query_resolved tables query table Hr)
        as [clauses [conditions [_ [_ [_ ->]]]]].
      destruct clauses; eexists; reflexivity.
    + destruct (generate_delete_query_resolved tables query table Hr)
        as [conditions [_ ->]].
      destruct conditions; eexists; reflexivity.
    + eexists. reflexivity.
Qed.

(** One turn of the loop: it stops, or it goes on with the lines that are
    left, with the same schema and file or, after a [schema] command, with one
    table set and the file rewritten. *)
Definition stops (tables : schema) (file : option schema) (stdin : list string) (r : run)
  : Prop :=
  tables_end r = tables /\ file_end r = file
  /\ (how r = EndOfInput
      \/ (how r = Goodbye /\ exists line rest, stdin = line :: rest /\ lower line = "exit")).

Definition goes_on (tables : schema) (file : option schema) (stdin : list string) (r : run)
  : Prop :=
  exists first others rest tables' file' events,
    stdin = (first :: others ++ rest)%list
    /\ lower first <> "exit"
    /\ r = prepend events (main_loop tables' file' rest)
    /\ ((tables' = tables /\ file' = file)
        \/ (lower first = "schema"
            /\ exists table_name columns,
                 tables' = setitem tables table_name (map strip (split "," columns))
                 /\ file' = Some tables')).

Lemma main_loop_turn (tables : schema) (file : option schema) (stdin : list string) :
  stops tables file stdin (main_loop tables file stdin)
  \/ goes_on tables file stdin (main_loop tables file stdin).
Proof.
  destruct stdin as [|l1 stdin1]; simpl.
  { left. unfold stops. simpl. auto. }
  destruct (String.eqb (lower l1) "exit") eqn:Ex.
  { left. apply String.eqb_eq in Ex. unfold stops. simpl.
    repeat split. right. split; [reflexivity|]. now exists l1, stdin1. }
  apply String.eqb_neq in Ex.
  destruct (String.eqb (lower l1) "schema") eqn:Es.
  - apply String.eqb_eq in Es.
    destruct stdin1 as [|l2 stdin2]; [left; unfold stops; simpl; auto|].
    destruct (String.eqb (lower l2) "yes").
    + destruct stdin2 as [|l3 stdin3]; [left; unfold stops; simpl; auto|].
      destruct stdin3 as [|l4 stdin4]; [left; unfold stops; simpl; auto|].
      right. exists l1, [l2; l3; l4], stdin4. do 3 eexists.
      split; [reflexivity|]. split; [exact Ex|]. split; [reflexivity|].
      right. split; [exact Es|]. now exists l3, l4.
    + right. exists l1, [l2], stdin2. do 3 eexists.
      split; [reflexivity|]. split; [exact Ex|]. split; [reflexivity|]. now left.
  - destruct (generate_query_ok tables l1) as [sql ->].
    right. exists l1, [], stdin1. do 3 eexists.
    split; [reflexivity|]. split; [exact Ex|]. split; [reflexivity|]. now left.
Qed.

(** Induction over the turns of the loop. *)
Lemma main_loop_turns
  (P : schema -> option schema -> list string -> run -> Prop)
  (Hstop : forall tables file stdin r, stops tables file stdin r -> P tables file stdin r)
  (Hgo : forall tables file first others rest tables' file' events,
      lower first <> "exit" ->
      ((tables' = tables /\ file' = file)
       \/ (lower first = "schema"
           /\ exists table_name columns,
                tables' = setitem tables table_name (map strip (split "," columns))
                /\ file' = Some tables')) ->
      P tables' file' rest (main_loop tables' file' rest) ->
      P tables file (first :: others ++ rest)%list
        (prepend events (main_loop tables' file' rest))) :
  forall stdin tables file, P tables file stdin (main_loop tables file stdin).
Proof.
  intros stdin.
  assert (H : forall n stdin tables file,
             List.length stdin <= n -> P tables file stdin (main_loop tables file stdin)).
  { induction n as [|n IH]; intros input tables file Hlen;
      (destruct (main_loop_turn tables file input) as [Hs | Hg]; [now apply Hstop|]);
      destruct Hg as [first [others [rest [tables' [file' [events [E [Hx [-> Hch]]]]]]]]];
      subst input.
    - simpl in Hlen. lia.
    - apply Hgo; [exact Hx | exact Hch|]. apply IH.
      simpl in Hlen. rewrite length_app in Hlen. lia. }
  intros tables file. now apply (H (List.length stdin)).
Qed.

(** A session never ends by an exception of the generator: it ends by the
    [exit] command, and then some line of the input is [exit] in some letter
    case, or by [EOFError] when the input is used up; an input without any
    [exit] line always ends by [EOFError]. *)
Theorem session_ending (file : option schema) (stdin : list string) :
  (how (main file stdin) = Goodbye \/ how (main file stdin) = EndOfInput)
  /\ (how (main file stdin) = Goodbye ->
      exists line, In line stdin /\ lower line = "exit")
  /\ ((forall line, In line stdin -> lower line <> "exit") ->
      how (main file stdin) = EndOfInput).
Proof.
  assert (H : forall input tables f,
             (how (main_loop tables f input) = Goodbye
              \/ how (main_loop tables f input) = EndOfInput)
             /\ (how (main_loop tables f input) = Goodbye ->
                 exists line, In line input /\ lower line = "exit")).
  { apply (main_loop_turns
             (fun _ _ input r =>
                (how r = Goodbye \/ how r = EndOfInput)
                /\ (how r = Goodbye -> exists line, In line input /\ lower line = "exit"))).
    - intros tables f input r [_ [_ [He | [Hg [line [rest [-> Hl]]]]]]].
      + split; [now right|]. intros Hg. congruence.
      + split; [now left|]. intros _. exists line. split; [now left | exact Hl].
    - intros tables f first others rest tables' f' events _ _ [Hor Hex].
      split; [exact Hor|]. intros Hg. destruct (Hex Hg) as [line [Hin Hl]].
      exists line. split; [|exact Hl]. right. apply in_or_app. now right. }
  destruct (H stdin (load_schema file) file) as [Hor Hex].
  split; [exact Hor|]. split; [exact Hex|].
  intros Hno. destruct Hor as [Hg | He]; [|exact He].
  destruct (Hex Hg) as [line [Hin Hl]]. now elim (Hno line Hin).
Qed.

(** At the end of every session the file holds the schema the session ended
    with, or there is still no file and the schema is the built-in one: a new
    session starts with the schema the last one ended with. *)
Theorem session_restart (file : option schema) (stdin : list string) :
  load_schema (file_end (main file stdin)) = tables_end (main file stdin).
Proof.
  assert (H : forall input tables f,
             load_schema f = tables ->
             load_schema (file_end (main_loop tables f input))
             = tables_end (main_loop tables f input)).
  { apply (main_loop_turns
             (fun tables f _ r =>
                load_schema f = tables -> load_schema (file_end r) = tables_end r)).
    - intros tables f input r [-> [-> _]] E. exact E.
    - intros tables f first others rest tables' f' events _ Hch IH E.
      simpl. apply IH. destruct Hch as [[-> ->] | [_ [name [columns [_ ->]]]]];
        [exact E | reflexivity]. }
  now apply H.
Qed.

Lemma keys_setitem (tables : schema) (table_name : string) (column_list : list string) :
  keys (setitem tables table_name column_list)
  = (keys tables ++ if has_key table_name tables then [] else [table_name])%list.
Proof.
  induction tables as [|[k v] rest IH]; [reflexivity|].
  unfold has_key in *. simpl. rewrite (String.eqb_sym table_name k).
  destruct (String.eqb k table_name) eqn:E; simpl.
  - apply String.eqb_eq in E. subst k. now rewrite app_nil_r.
  - now rewrite IH.
Qed.

Lemma find_app_first {A : Type} (f : A -> bool) (l l' : list A) (x : A) :
  find f l = Some x -> find f (l ++ l') = Some x.
Proof.
  induction l as [|a l IH]; simpl; [discriminate|].
  destruct (f a); [trivial | exact IH].
Qed.

(** A session only adds tables, after the ones it started with: the table
    names at the end are the names at the start, in the same order, followed
    by the new ones.  So a sentence that resolved to a table at the start
    resolves to the same table at the end. *)
Theorem session_keeps_tables (file : option schema) (stdin : list string) :
  (exists added,
     keys (tables_end (main file stdin)) = (keys (load_schema file) ++ added)%list)
  /\ (forall query table,
        identify_table (load_schema file) query = Some table ->
        identify_table (tables_end (main file stdin)) query = Some table).
Proof.
  assert (H : forall input tables f,
             exists added,
               keys (tables_end (main_loop tables f input)) = (keys tables ++ added)%list).
  { apply (main_loop_turns
             (fun tables _ _ r => exists added, keys (tables_end r) = (keys tables ++ added)%list)).
    - intros tables f input r [-> _]. exists []. now rewrite app_nil_r.
    - intros tables f first others rest tables' f' events _ Hch [added IH].
      simpl. destruct Hch as [[-> ->] | [_ [name [columns [-> _]]]]].
      + now exists added.
      + rewrite IH, keys_setitem, <- app_assoc. eexists. reflexivity. }
  destruct (H stdin (load_schema file) file) as [added E].
  split; [now exists added|].
  intros query table Hq. unfold identify_table in *.
  change (tables_end (main file stdin))
    with (tables_end (main_loop (load_schema file) file stdin)).
  rewrite E. now apply find_app_first.
Qed.



Lemma getitem_setitem (tables : schema) (table_name : string) (column_list : list string) :
  getitem (setitem tables table_name column_list) table_name = Ok column_list.
Proof.
  induction tables as [|[k v] rest IH]; simpl.
  - now rewrite String.eqb_refl.
  - destruct (String.eqb k table_name) eqn:E; simpl; now rewrite E.
Qed.

Lemma getitem_setitem_other
      (tables : schema) (table_name other : string) (column_list : list string) :
  other <> table_name ->
  getitem (setitem tables table_name column_list) other = getitem tables other.
Proof.
  intros Hne. induction tables as [|[k v] rest IH]; simpl.
  - destruct (String.eqb table_name other) eqn:E; [|reflexivity].
    apply String.eqb_eq in E. now elim Hne.
  - destruct (String.eqb k table_name) eqn:E; simpl.
    + apply String.eqb_eq in E. subst k.
      destruct (String.eqb table_name other) eqn:E'; [|reflexivity].
      apply String.eqb_eq in E'. now elim Hne.
    + now rewrite IH.
Qed.

(** A stripped text is empty or begins and ends with a character that is not
    white space. *)
Definition trimmed (s : string) : Prop :=
  s = ""
  \/ ((exists c t, s = String c t /\ isspace_char c = false)
      /\ (exists c, last_char s = Some c /\ isspace_char c = false)).

Lemma lstrip_head (s : string) (c : ascii) (t : string) :
  lstrip s = String c t -> isspace_char c = false.
Proof.
  induction s as [|a s IH]; simpl; [discriminate|].
  destruct (isspace_char a) eqn:E; [exact IH|]. intros [= <- _]. exact E.
Qed.

Lemma rstrip_head (c : ascii) (s : string) :
  rstrip (String c s) = "" \/ exists t, rstrip (String c s) = String c t.
Proof.
  simpl. destruct (rstrip s) as [|d r].
  - destruct (isspace_char c); [now left | right; now exists ""].
  - right. now exists (String d r).
Qed.

Lemma rstrip_last (s : string) :
  rstrip s = "" \/ exists c, last_char (rstrip s) = Some c /\ isspace_char c = false.
Proof.
  induction s as [|a s IH]; simpl; [now left|].
  destruct (rstrip s) as [|d r] eqn:E.
  - destruct (isspace_char a) eqn:Ea; [now left|]. right. now exists a.
  - right. destruct IH as [IH | [c [Hc Hs]]]; [discriminate|].
    exists c. split; [|exact Hs].
    change (last_char (String a (String d r))) with (last_char (String d r)). exact Hc.
Qed.

Lemma strip_trimmed (s : string) : trimmed (strip s).
Proof.
  unfold strip, trimmed.
  destruct (lstrip s) as [|c t] eqn:E; [now left|].
  pose proof (lstrip_head s c t E) as Hc.
  destruct (rstrip_head c t) as [E' | [t' E']]; [now left | right].
  split.
  - exists c, t'. now split.
  - destruct (rstrip_last (String c t)) as [H | H]; [congruence | exact H].
Qed.

(** The [schema] command answered by [yes], a table name and a line of
    columns: the loop goes on with the table set to the columns and the file
    rewritten.  The columns are the parts of the line between commas, without
    the white space around them (so there is at least one, and an empty line
    gives the one column with the empty name); the table then has exactly
    these columns and every other table has the columns it had. *)
Theorem schema_update
  (tables : schema) (file : option schema)
  (command answer table_name columns : string) (rest : list string)
  (Hcommand : lower command = "schema") (Hanswer : lower answer = "yes") :
  let column_list := map strip (split "," columns) in
  let tables' := setitem tables table_name column_list in
  let r := main_loop tables file (command :: answer :: table_name :: columns :: rest) in
  tables_end r = tables_end (main_loop tables' (Some tables') rest)
  /\ file_end r = file_end (main_loop tables' (Some tables') rest)
  /\ how r = how (main_loop tables' (Some tables') rest)
  /\ getitem tables' table_name = Ok column_list
  /\ (forall other, other <> table_name ->
                    getitem tables' other = getitem tables other)
  /\ column_list <> []
  /\ Forall (fun column => trimmed column /\ without "," column = true) column_list
  /\ (columns = "" -> column_list = [""]).
Proof.
  intros column_list tables' r.
  assert (Er : r = prepend (ask_update tables
                              ++ [Prompted "Enter table name: ";
                                  Prompted "Enter column names (comma separated): ";
                                  Printed "Schema updated successfully!"])%list
                           (main_loop tables' (Some tables') rest)).
  { unfold r. simpl. rewrite Hcommand, Hanswer. reflexivity. }
  rewrite Er. repeat split.
  - apply getitem_setitem.
  - intros other Hne. now apply getitem_setitem_other.
  - unfold column_list. pose proof (split_nonempty "," columns) as Hne.
    destruct (split "," columns); [now elim Hne | discriminate].
  - apply Forall_forall. intros column Hin.
    apply in_map_iff in Hin as [part [<- Hin]].
    split; [apply strip_trimmed|].
    apply all_in_strip. now apply (without_split "," columns).
  - intros ->. reflexivity.
Qed.

Lemma schema_update_witness :
  getitem (setitem default_schema "pets" (map strip (split "," " id , name ")))
          "pets"
  = Ok (map strip (split "," " id , name ")).
Proof.
  refine (proj1 (proj2 (proj2 (proj2
    (schema_update default_schema None "Schema" "YES" "pets" " id , name " ["exit"]
       _ _))))); reflexivity.
Defined.

Example schema_update_columns :
  map strip (split "," " id , name ") = ["id"; "name"]
  /\ map strip (split "," "a,b,") = ["a"; "b"; ""].
Proof. split; reflexivity. Qed.

(** A column with the empty name, as a line of columns that is empty or ends
    with a comma gives, occurs in every sentence: for its table the columns
    mentioned are never none, so SELECT never uses [*] and INSERT never uses
    the columns of the schema without [id]. *)
Theorem empty_column_always_mentioned
  (tables : schema) (query table : string) (all : list string)
  (Htable : resolved_table tables query table)
  (Hall : getitem tables table = Ok all)
  (Hempty : In "" all) :
  identify_columns tables query table = Ok (mentioned_columns query all)
  /\ In "" (mentioned_columns query all)
  /\ insert_columns query all = mentioned_columns query all.
Proof.
  assert (Hin : In "" (mentioned_columns query all)).
  { apply mentioned_columns_spec. split; [exact Hempty|].
    apply str_in_spec, str_in_empty. }
  split; [now apply identify_columns_resolved|]. split; [exact Hin|].
  unfold insert_columns.
  destruct (mentioned_columns query all); [destruct Hin | reflexivity].
Qed.

Lemma empty_column_always_mentioned_witness :
  In "" (mentioned_columns "show pets" ["a"; ""]).
Proof.
  refine (proj1 (proj2 (empty_column_always_mentioned
                          [("pets", ["a"; ""])] "show pets" "pets" ["a"; ""] _ _ _))).
  - split; [vm_compute; reflexivity | discriminate].
  - reflexivity.
  - right. now left.
Defined.

End Sessions.
